(** * Leveled logging with daily file rotation (package [log], file log.go)

    A shallow embedding of the package: the severity enum and its string
    table, [ParseLevel], the [Logger] with its three rendering paths
    ([log], [logln], [logf]), the rotation check ([rotate], [doRotate]),
    the per-severity methods and the package-level default logger [Std].

    Go strings are byte strings; they are modelled by [string].  The
    operating system, the wall clock and the parts of the Go standard
    library the package calls ([fmt], [strings], [os], the standard [log]
    package) are modelled next to the code, each with the reach of its
    model written in its comment.  The embedding is sequential: one
    goroutine runs at a time, so the mutex of [doRotate] is always free
    when it is taken and is not part of the state. *)

From stdpp Require Import gmap strings list fin_maps pretty.
From Stdlib Require Import ZArith Ascii String Lia.

Local Open Scope Z_scope.
Local Open Scope string_scope.

(** ** Go values handed to the printing functions *)

(** The [error] values that occur: [fmt.Errorf] builds an error from its
    text, [os] reports a [*PathError] (open, close) or a [*LinkError]
    (rename), and the runtime panics with a bounds error (a
    [runtime.Error]) at an index past the end of a slice. *)
Inductive error : Type :=
| errorString (msg : string)
| PathError (op path msg : string)
| LinkError (op old new msg : string)
| boundsError (index length : Z).

(** The [Error()] method of the four error types. *)
Definition Error_ (e : error) : string :=
  match e with
  | errorString msg => msg
  | PathError op path msg => op +:+ " " +:+ path +:+ ": " +:+ msg
  | LinkError op old new msg => op +:+ " " +:+ old +:+ " " +:+ new +:+ ": " +:+ msg
  | boundsError index length =>
      "runtime error: index out of range [" +:+ pretty index +:+
      "] with length " +:+ pretty length
  end.

(** An [interface{}] argument of a logging call: a string, an integer, a
    boolean or an error. *)
Inductive Value : Type :=
| VString (s : string)
| VInt (n : Z)
| VBool (b : bool)
| VError (e : error).

Definition isString (v : Value) : bool :=
  match v with VString _ => true | _ => false end.

(** ** The parts of the standard library left open

    Three library functions are modelled only on a fragment of their
    inputs; outside it their result is taken from this record, so that
    every theorem holds whatever they compute there. *)
Record Extern : Type := mkExtern {
  (** [strings.Map(unicode.ToLower, s)], used by [strings.ToLower] on a
      string with a byte outside ASCII *)
  unicode_ToLower : string -> string;
  (** [strconv.Quote] on a string with a byte outside printable ASCII *)
  Quote_other : string -> string;
  (** [fmt.Sprintf] on a format or an operand outside the modelled verbs *)
  Sprintf_other : string -> list Value -> string
}.

(** ** package strings *)

Definition isUpperASCII (c : ascii) : bool :=
  ((65 <=? N_of_ascii c) && (N_of_ascii c <=? 90))%N.

Definition isASCII (c : ascii) : bool := (N_of_ascii c <? 128)%N.

(** ['A'..'Z'] is moved to ['a'..'z'] by adding ['a' - 'A']. *)
Definition lowerByte (c : ascii) : ascii :=
  if isUpperASCII c then ascii_of_N (N_of_ascii c + 32) else c.

Fixpoint allASCII (s : string) : bool :=
  match s with
  | EmptyString => true
  | String c s' => isASCII c && allASCII s'
  end.

Fixpoint mapBytes (f : ascii -> ascii) (s : string) : string :=
  match s with
  | EmptyString => EmptyString
  | String c s' => String (f c) (mapBytes f s')
  end.

(** [strings.ToLower]: the byte loop on an ASCII string, the Unicode
    mapping otherwise. *)
Definition ToLower (ext : Extern) (s : string) : string :=
  if allASCII s then mapBytes lowerByte s else unicode_ToLower ext s.

(** ** package strconv and package fmt *)

Definition dquote : ascii := "034"%char.
Definition backslash : ascii := "092"%char.

Definition isPrintASCII (c : ascii) : bool :=
  ((32 <=? N_of_ascii c) && (N_of_ascii c <=? 126))%N.

Fixpoint allPrintASCII (s : string) : bool :=
  match s with
  | EmptyString => true
  | String c s' => isPrintASCII c && allPrintASCII s'
  end.

(** The body of a quoted string: a double quote and a backslash are
    escaped by a backslash. *)
Fixpoint escape (s : string) : string :=
  match s with
  | EmptyString => EmptyString
  | String c s' =>
      if (Ascii.eqb c dquote || Ascii.eqb c backslash)%bool
      then String backslash (String c (escape s'))
      else String c (escape s')
  end.

(** [strconv.Quote], which the verb [%q] applies to a string. *)
Definition Quote (ext : Extern) (s : string) : string :=
  if allPrintASCII s
  then String dquote (escape s +:+ String dquote EmptyString)
  else Quote_other ext s.

(** An operand under the verb [%v]. *)
Definition fmtV (v : Value) : string :=
  match v with
  | VString s => s
  | VInt n => pretty n
  | VBool b => if b then "true" else "false"
  | VError e => Error_ e
  end.

(** [doPrint], the loop of [fmt.Sprint]: a space goes between two operands
    when neither is a string.  [argNum0] says that the operand at the head
    is the first one. *)
Fixpoint doPrint (argNum0 prevString : bool) (a : list Value) : string :=
  match a with
  | [] => ""
  | arg :: rest =>
      (if (negb argNum0 && negb (isString arg) && negb prevString)%bool
       then " " else "")
      +:+ fmtV arg +:+ doPrint false (isString arg) rest
  end.

Definition Sprint (a : list Value) : string := doPrint true false a.

(** [doPrintln], the loop of [fmt.Sprintln]: a space between any two
    operands and a newline at the end. *)
Fixpoint doPrintln (argNum0 : bool) (a : list Value) : string :=
  match a with
  | [] => String "010"%char EmptyString
  | arg :: rest =>
      (if argNum0 then "" else " ") +:+ fmtV arg +:+ doPrintln false rest
  end.

Definition Sprintln (a : list Value) : string := doPrintln true a.

(** The Go type name of an operand, as [fmt] prints it in its error forms.
    The dynamic type of an error is not known here. *)
Definition typeName (v : Value) : option string :=
  match v with
  | VString _ => Some "string"
  | VInt _ => Some "int"
  | VBool _ => Some "bool"
  | VError _ => None
  end.

(** The form [%!verb(type=value)] that [fmt] prints for a verb that does
    not fit its operand. *)
Definition badVerb (verb : ascii) (v : Value) : option string :=
  match typeName v with
  | Some t =>
      Some ("%!" +:+ String verb ("(" +:+ t +:+ "=" +:+ fmtV v +:+ ")"))
  | None => None
  end.

(** One operand under one of the verbs [v], [s], [d], [q]; [None] where the
    model stops. *)
Definition fmtVerb (ext : Extern) (verb : ascii) (v : Value) : option string :=
  if Ascii.eqb verb "v" then Some (fmtV v)
  else if Ascii.eqb verb "s" then
    match v with
    | VString s => Some s
    | VError e => Some (Error_ e)
    | _ => badVerb verb v
    end
  else if Ascii.eqb verb "d" then
    match v with
    | VInt n => Some (pretty n)
    | VError _ => None
    | _ => badVerb verb v
    end
  else if Ascii.eqb verb "q" then
    match v with
    | VString s => Some (Quote ext s)
    | VError e => Some (Quote ext (Error_ e))
    | VBool _ => badVerb verb v
    | VInt _ => None
    end
  else None.

(** The operands left over at the end of the format:
    [%!(EXTRA type=value, type=value)]. *)
Fixpoint extraArgs (a : list Value) : option string :=
  match a with
  | [] => Some ""
  | v :: rest =>
      match typeName v, extraArgs rest with
      | Some t, Some r =>
          Some (t +:+ "=" +:+ fmtV v +:+ (if rest is [] then "" else ", ") +:+ r)
      | _, _ => None
      end
  end.

(** The end of the format: operands that no verb used are reported. *)
Definition endPrintf (a : list Value) : option string :=
  match a with
  | [] => Some ""
  | _ => (fun r => "%!(EXTRA " +:+ r +:+ ")") <$> extraArgs a
  end.

Definition isVerb (verb : ascii) : bool :=
  (Ascii.eqb verb "v" || Ascii.eqb verb "s"
   || Ascii.eqb verb "d" || Ascii.eqb verb "q")%bool.

(** [doPrintf] on formats whose directives are a [%] followed at once by
    one of [v], [s], [d], [q], [%]. *)
Fixpoint doPrintf (ext : Extern) (format : string) (a : list Value) : option string :=
  match format with
  | EmptyString => endPrintf a
  | String c tl =>
      if Ascii.eqb c "%" then
        match tl with
        | EmptyString => (fun r => "%!(NOVERB)" +:+ r) <$> endPrintf a
        | String verb rest =>
            if Ascii.eqb verb "%" then String "%"%char <$> doPrintf ext rest a
            else
              match a with
              | [] =>
                  if isVerb verb
                  then (fun r => "%!" +:+ String verb ("(MISSING)" +:+ r))
                         <$> doPrintf ext rest []
                  else None
              | arg :: a' =>
                  match fmtVerb ext verb arg, doPrintf ext rest a' with
                  | Some x, Some r => Some (x +:+ r)
                  | _, _ => None
                  end
              end
        end
      else String c <$> doPrintf ext tl a
  end.

(** [fmt.Sprintf]. *)
Definition Sprintf (ext : Extern) (format : string) (a : list Value) : string :=
  match doPrintf ext format a with
  | Some s => s
  | None => Sprintf_other ext format a
  end.

(** [fmt.Errorf]. *)
Definition fmt_Errorf (ext : Extern) (format : string) (a : list Value) : error :=
  errorString (Sprintf ext format a).

(** ** The severity enum *)

(** [type Level uint8]: a value in [0, 256). *)
Definition Level : Type := Z.

Definition Ldebug : Level := 0.
Definition Linfo : Level := 1.
Definition Lwarn : Level := 2.
Definition Lerror : Level := 3.
Definition Lpanic : Level := 4.
Definition Lfatal : Level := 5.

(** The six declared constants. *)
Definition all_levels : list Level :=
  [Ldebug; Linfo; Lwarn; Lerror; Lpanic; Lfatal].

Definition is_level (l : Level) : Prop := l ∈ all_levels.

(** [var levels = []string{...}] *)
Definition levels : list string :=
  ["DEBUG"; "INFO"; "WARN"; "ERROR"; "PANIC"; "FATAL"].

(** [ParseLevel]: the switch over the lowered text; the zero [Level] and an
    error built from the text as it came in otherwise. *)
Definition ParseLevel (ext : Extern) (lvl : string) : Level * option error :=
  let s := ToLower ext lvl in
  if String.eqb s "panic" then (Lpanic, None)
  else if String.eqb s "fatal" then (Lfatal, None)
  else if String.eqb s "error" then (Lerror, None)
  else if String.eqb s "warn" then (Lwarn, None)
  else if String.eqb s "info" then (Linfo, None)
  else if String.eqb s "debug" then (Ldebug, None)
  else (0, Some (fmt_Errorf ext "invalid log Level: %q" [VString lvl])).

(** ** The standard [log.Logger] and the world it writes to *)

(** An [*os.File]: the identity of the handle. *)
Definition File : Type := nat.

(** An [io.Writer]: standard error, a file, or some other sink. *)
Inductive Writer : Type :=
| Stderr
| FileWriter (f : File)
| OtherWriter (id : nat).

(** The state of a [*log.Logger] of the standard library. *)
Record StdLogger : Type := mkStdLogger {
  out : Writer;
  prefix : string;
  flag : Z
}.

(** Flag bits of the standard [log] package. *)
Definition Ldate : Z := 1.
Definition Ltime : Z := 2.
Definition Lshortfile : Z := 16.
Definition LstdFlags : Z := Z.lor Ldate Ltime.

(** [Ldefault = log.Lshortfile | log.LstdFlags] *)
Definition Ldefault : Z := Z.lor Lshortfile LstdFlags.

(** [log.New] and [Logger.SetOutput] of that package. *)
Definition log_New (w : Writer) (prefix : string) (flag : Z) : StdLogger :=
  mkStdLogger w prefix flag.

Definition SetOutput (lg : StdLogger) (w : Writer) : StdLogger :=
  mkStdLogger w (prefix lg) (flag lg).

(** What one call of [Output] puts into a file: the header that [prefix]
    and [flag] select (its timestamp and file:line are not rendered here)
    and the text, closed by a newline. *)
Record Entry : Type := mkEntry {
  e_prefix : string;
  e_flag : Z;
  e_text : string
}.

(** The calls that leave the package, in the order they are made. *)
Inductive Event : Type :=
| EvClose (f : option File) (err : option error)
| EvRename (oldpath newpath : string) (err : option error)
| EvOpenFile (name : string) (res : File + error)
| EvOutput (lg : StdLogger) (calldepth : Z) (s : string).

(** The file system: the directory maps a path to a file, [data] holds what
    was appended to each file, [handles] maps every [*os.File] ever made to
    the file it is open on, or to [None] once it is closed. *)
Record FS : Type := mkFS {
  dir : gmap string nat;
  data : gmap nat (list Entry);
  handles : gmap File (option nat)
}.

(** The world: [clock n] is what [time.Now().Format(TimeLayout)] gives at
    the [n]-th reading of the wall clock, [faults n] the failure the
    operating system reports at the [n]-th system call, if any. *)
Record World : Type := mkWorld {
  clock : nat -> string;
  ticks : nat;
  faults : nat -> option string;
  syscalls : nat;
  fs : FS;
  trace : list Event
}.

(** How a call ends: it returns, the process exits ([os.Exit]), or a panic
    unwinds with its value. *)
Inductive Outcome (A : Type) : Type :=
| Returns (a : A) (w : World)
| Exits (code : Z) (w : World)
| Panics (v : Value) (w : World).

Arguments Returns {A} a w.
Arguments Exits {A} code w.
Arguments Panics {A} v w.

Definition M (A : Type) : Type := World -> Outcome A.

Definition ret {A : Type} (a : A) : M A := fun w => Returns a w.

Definition bind {A B : Type} (m : M A) (k : A -> M B) : M B :=
  fun w =>
    match m w with
    | Returns a w' => k a w'
    | Exits code w' => Exits code w'
    | Panics v w' => Panics v w'
    end.

Notation "x <- m ;; k" := (bind m (fun x => k))
  (at level 100, m at next level, right associativity).

Definition os_Exit {A : Type} (code : Z) : M A := fun w => Exits code w.

Definition panic {A : Type} (v : Value) : M A := fun w => Panics v w.

(** The status the parent process sees on Unix: the low eight bits. *)
Definition exit_status (code : Z) : Z := Z.land code 255.

Definition emit (e : Event) (w : World) : World :=
  mkWorld (clock w) (ticks w) (faults w) (syscalls w) (fs w) (trace w ++ [e]).

Definition set_fs (s : FS) (w : World) : World :=
  mkWorld (clock w) (ticks w) (faults w) (syscalls w) s (trace w).

(** One system call is made: its fault, if any, and the world after it. *)
Definition syscall (w : World) : option string * World :=
  (faults w (syscalls w),
   mkWorld (clock w) (ticks w) (faults w) (S (syscalls w)) (fs w) (trace w)).

(** The world after one more reading of the clock. *)
Definition tick (w : World) : World :=
  mkWorld (clock w) (S (ticks w)) (faults w) (syscalls w) (fs w) (trace w).

(** [time.Now().Format(TimeLayout)]: the next reading of the clock. *)
Definition Now_Format : M string :=
  fun w => Returns (clock w (ticks w)) (tick w).

(** ** package os *)

(** [os.OpenFile(name, os.O_CREATE|os.O_APPEND|os.O_RDWR, 0666)]: the file
    at [name] is opened for appending, and made first when there is none;
    the handle is a new one. *)
Definition OpenFile (name : string) : M (File + error) :=
  fun w =>
    let '(fault, w1) := syscall w in
    match fault with
    | Some msg =>
        let r := inr (PathError "open" name msg) in
        Returns r (emit (EvOpenFile name r) w1)
    | None =>
        let s := fs w1 in
        let f := fresh (dom (handles s)) in
        let s' :=
          match dir s !! name with
          | Some ino => mkFS (dir s) (data s) (<[f := Some ino]> (handles s))
          | None =>
              let ino := fresh (dom (data s)) in
              mkFS (<[name := ino]> (dir s)) (<[ino := []]> (data s))
                   (<[f := Some ino]> (handles s))
          end in
        Returns (inl f) (emit (EvOpenFile name (inl f)) (set_fs s' w1))
    end.

(** [File.Close]: a nil or closed handle is an error; otherwise the
    handle is closed, whatever the system call reports. *)
Definition Close (fd : option File) (path : string) : M (option error) :=
  fun w =>
    match fd with
    | None =>
        let r := Some (errorString "invalid argument") in
        Returns r (emit (EvClose fd r) w)
    | Some f =>
        match handles (fs w) !! f with
        | Some (Some _) =>
            let '(fault, w1) := syscall w in
            let s := fs w1 in
            let s' := mkFS (dir s) (data s) (<[f := None]> (handles s)) in
            let r := (fun msg => PathError "close" path msg) <$> fault in
            Returns r (emit (EvClose fd r) (set_fs s' w1))
        | _ =>
            let r := Some (PathError "close" path "file already closed") in
            Returns r (emit (EvClose fd r) w)
        end
    end.

(** [os.Rename]: the file moves to the new path, replacing what was there. *)
Definition Rename (oldpath newpath : string) : M (option error) :=
  fun w =>
    let '(fault, w1) := syscall w in
    let s := fs w1 in
    match fault, dir s !! oldpath with
    | Some msg, _ =>
        let r := Some (LinkError "rename" oldpath newpath msg) in
        Returns r (emit (EvRename oldpath newpath r) w1)
    | None, None =>
        let r := Some (LinkError "rename" oldpath newpath
                         "no such file or directory") in
        Returns r (emit (EvRename oldpath newpath r) w1)
    | None, Some ino =>
        let s' := mkFS (<[newpath := ino]> (delete oldpath (dir s)))
                       (data s) (handles s) in
        Returns None (emit (EvRename oldpath newpath None) (set_fs s' w1))
    end.

(** A [Write] on a writer.  Only files keep what is written (the other
    writers show in the trace); a write on a closed handle or a write that
    the system refuses appends nothing. *)
Definition Write (wr : Writer) (e : Entry) (w : World) : World :=
  match wr with
  | FileWriter f =>
      match handles (fs w) !! f with
      | Some (Some ino) =>
          let '(fault, w1) := syscall w in
          match fault with
          | Some _ => w1
          | None =>
              let s := fs w1 in
              set_fs (mkFS (dir s) (alter (fun es => (es ++ [e])%list) ino (data s))
                           (handles s)) w1
          end
      | _ => w
      end
  | _ => w
  end.

(** ** package log of the standard library *)

Definition newline : ascii := "010"%char.

Fixpoint endsWithNewline (s : string) : bool :=
  match s with
  | EmptyString => false
  | String c EmptyString => Ascii.eqb c newline
  | String _ s' => endsWithNewline s'
  end.

(** [Logger.Output] of the standard library: the text gets a newline unless it ends in one,
    and goes to the writer in one [Write].  The error of the write is
    returned by the library and dropped by every caller in this package. *)
Definition Output (lg : StdLogger) (calldepth : Z) (s : string) : M unit :=
  fun w =>
    let text := if endsWithNewline s then s else s +:+ String newline EmptyString in
    Returns tt
      (Write (out lg) (mkEntry (prefix lg) (flag lg) text)
         (emit (EvOutput lg calldepth s) w)).

(** The standard logger of the library, as the library sets it up. *)
Definition log_std : StdLogger := log_New Stderr "" LstdFlags.

(** [log.Fatal]: [Output] on the standard logger, then [os.Exit(1)]. *)
Definition log_Fatal {A : Type} (v : list Value) : M A :=
  _ <- Output log_std 2 (Sprint v) ;;
  os_Exit 1.

(** ** The logger *)

(** [type Logger struct]; the mutex is left out (see the head of the file).
    The [*log.Logger] is owned by this logger alone, so it is kept by
    value. *)
Record Logger : Type := mkLogger {
  logger : StdLogger;
  level : Level;
  shouldRotate : bool;
  timeSuffix : string;
  fileName : string;
  fd : option File
}.

(** [New]: the fields that are not given keep their zero value. *)
Definition New (w : Writer) (prefix : string) (flag : Z) (level : Level) : Logger :=
  mkLogger (log_New w prefix flag) level false "" "" None.

(** [NewRotate]: a failure to open the file ends the process. *)
Definition NewRotate (fileName : string) (prefix : string) (flag : Z)
    (level : Level) : M Logger :=
  r <- OpenFile fileName ;;
  match r with
  | inr err => log_Fatal [VError err]
  | inl f =>
      suffix <- Now_Format ;;
      ret (mkLogger (log_New (FileWriter f) prefix flag) level true
             suffix fileName (Some f))
  end.

(** [var Std = New(os.Stderr, "", Ldefault, Ldebug)]: the value the
    variable holds when the package is initialised. *)
Definition Std : Logger := New Stderr "" Ldefault Ldebug.

(** [doRotate]: the second comparison, then close, rename, open; the three
    fields change together at the end, and only there. *)
Definition doRotate (l : Logger) : M (Logger * option error) :=
  suffix <- Now_Format ;;
  if String.eqb suffix (timeSuffix l) then ret (l, None)
  else
    err <- Close (fd l) (fileName l) ;;
    match err with
    | Some e => ret (l, Some e)
    | None =>
        let lastName := fileName l +:+ "." +:+ timeSuffix l in
        err <- Rename (fileName l) lastName ;;
        match err with
        | Some e => ret (l, Some e)
        | None =>
            r <- OpenFile (fileName l) ;;
            match r with
            | inr e => ret (l, Some e)
            | inl f =>
                ret (mkLogger (SetOutput (logger l) (FileWriter f)) (level l)
                       (shouldRotate l) suffix (fileName l) (Some f),
                     None)
            end
        end
    end.

(** [rotate]: the first comparison. *)
Definition rotate (l : Logger) : M (Logger * option error) :=
  suffix <- Now_Format ;;
  if negb (String.eqb suffix (timeSuffix l)) then
    r <- doRotate l ;;
    match snd r with
    | Some err => ret (fst r, Some err)
    | None => ret (fst r, None)
    end
  else ret (l, None).

(** The panic of the runtime at [levels[lvl]] for an index past the end
    of the slice: a bounds error with the index and the length. *)
Definition indexOutOfRange (lvl : Level) : Value :=
  VError (boundsError lvl (Z.of_nat (List.length levels))).

(** [log]: filter, rotation check, then [Sprint] of the tag and the
    operands.  The result is the logger after the call. *)
Definition log (l : Logger) (lvl : Level) (v : list Value) : M Logger :=
  if (lvl <? level l)%Z then ret l
  else
    l <- (if shouldRotate l then
            r <- rotate l ;;
            match snd r with
            | Some err => log_Fatal [VString "log rotate failed."; VError err]
            | None => ret (fst r)
            end
          else ret l) ;;
    match levels !! Z.to_nat lvl with
    | None => panic (indexOutOfRange lvl)
    | Some tag =>
        let v1 := VString (tag +:+ " ") :: v in
        _ <- Output (logger l) 4 (Sprint v1) ;;
        ret l
    end.

(** [logln]: as [log], with [Sprintln]. *)
Definition logln (l : Logger) (lvl : Level) (v : list Value) : M Logger :=
  if (lvl <? level l)%Z then ret l
  else
    l <- (if shouldRotate l then
            r <- rotate l ;;
            match snd r with
            | Some err => log_Fatal [VString "log rotate failed."; VError err]
            | None => ret (fst r)
            end
          else ret l) ;;
    match levels !! Z.to_nat lvl with
    | None => panic (indexOutOfRange lvl)
    | Some tag =>
        let v1 := VString (tag +:+ " ") :: v in
        _ <- Output (logger l) 4 (Sprintln v1) ;;
        ret l
    end.

(** [logf]: the tag and a space are put before [Sprintf] of the operands. *)
Definition logf (ext : Extern) (l : Logger) (lvl : Level) (format : string)
    (v : list Value) : M Logger :=
  if (lvl <? level l)%Z then ret l
  else
    l <- (if shouldRotate l then
            r <- rotate l ;;
            match snd r with
            | Some err => log_Fatal [VString "log rotate failed."; VError err]
            | None => ret (fst r)
            end
          else ret l) ;;
    match levels !! Z.to_nat lvl with
    | None => panic (indexOutOfRange lvl)
    | Some tag =>
        let s := tag +:+ " " +:+ Sprintf ext format v in
        _ <- Output (logger l) 4 s ;;
        ret l
    end.

(** ** The methods *)

Definition Fatal (l : Logger) (v : list Value) : M Logger :=
  _ <- log l Lfatal v ;; os_Exit (-1).

Definition Fatalf (ext : Extern) (l : Logger) (format : string)
    (v : list Value) : M Logger :=
  _ <- logf ext l Lfatal format v ;; os_Exit (-1).

Definition Fatalln (l : Logger) (v : list Value) : M Logger :=
  _ <- logln l Lfatal v ;; os_Exit (-1).

Definition Panic (l : Logger) (v : list Value) : M Logger :=
  _ <- log l Lpanic v ;; panic (VString (Sprint v)).

Definition Panicf (ext : Extern) (l : Logger) (format : string)
    (v : list Value) : M Logger :=
  _ <- logf ext l Lpanic format v ;; panic (VString (Sprintf ext format v)).

Definition Error (l : Logger) (v : list Value) : M Logger := log l Lerror v.

Definition Errorf (ext : Extern) (l : Logger) (format : string)
    (v : list Value) : M Logger := logf ext l Lerror format v.

Definition Warn (l : Logger) (v : list Value) : M Logger := log l Lwarn v.

Definition Warnf (ext : Extern) (l : Logger) (format : string)
    (v : list Value) : M Logger := logf ext l Lwarn format v.

Definition Debug (l : Logger) (v : list Value) : M Logger := log l Ldebug v.

Definition Debugf (ext : Extern) (l : Logger) (format : string)
    (v : list Value) : M Logger := logf ext l Ldebug format v.

Definition Info (l : Logger) (v : list Value) : M Logger := log l Linfo v.

Definition Infof (ext : Extern) (l : Logger) (format : string)
    (v : list Value) : M Logger := logf ext l Linfo format v.

Definition Print (l : Logger) (v : list Value) : M Logger := log l Linfo v.

Definition Printf (ext : Extern) (l : Logger) (format : string)
    (v : list Value) : M Logger := logf ext l Linfo format v.

Definition Println (l : Logger) (v : list Value) : M Logger := logln l Linfo v.

(** ** The exported methods as a table *)

(** The three rendering paths. *)
Inductive Mode : Type := ModePrint | ModePrintln | ModePrintf.

(** The path of a mode: [log], [logln] or [logf]. *)
Definition render (ext : Extern) (mode : Mode) (l : Logger) (lvl : Level)
    (format : string) (v : list Value) : M Logger :=
  match mode with
  | ModePrint => log l lvl v
  | ModePrintln => logln l lvl v
  | ModePrintf => logf ext l lvl format v
  end.

(** The exported methods of [*Logger], in the order of the file. *)
Inductive Method : Type :=
| MFatal | MFatalf | MFatalln
| MPanic | MPanicf
| MError | MErrorf
| MWarn | MWarnf
| MDebug | MDebugf
| MInfo | MInfof
| MPrint | MPrintf | MPrintln.

Definition all_methods : list Method :=
  [MFatal; MFatalf; MFatalln; MPanic; MPanicf; MError; MErrorf; MWarn; MWarnf;
   MDebug; MDebugf; MInfo; MInfof; MPrint; MPrintf; MPrintln].

Definition method_name (m : Method) : string :=
  match m with
  | MFatal => "Fatal" | MFatalf => "Fatalf" | MFatalln => "Fatalln"
  | MPanic => "Panic" | MPanicf => "Panicf"
  | MError => "Error" | MErrorf => "Errorf"
  | MWarn => "Warn" | MWarnf => "Warnf"
  | MDebug => "Debug" | MDebugf => "Debugf"
  | MInfo => "Info" | MInfof => "Infof"
  | MPrint => "Print" | MPrintf => "Printf" | MPrintln => "Println"
  end.

(** A method call; [format] is read by the [f] methods only. *)
Definition call (ext : Extern) (m : Method) (l : Logger) (format : string)
    (v : list Value) : M Logger :=
  match m with
  | MFatal => Fatal l v
  | MFatalf => Fatalf ext l format v
  | MFatalln => Fatalln l v
  | MPanic => Panic l v
  | MPanicf => Panicf ext l format v
  | MError => Error l v
  | MErrorf => Errorf ext l format v
  | MWarn => Warn l v
  | MWarnf => Warnf ext l format v
  | MDebug => Debug l v
  | MDebugf => Debugf ext l format v
  | MInfo => Info l v
  | MInfof => Infof ext l format v
  | MPrint => Print l v
  | MPrintf => Printf ext l format v
  | MPrintln => Println l v
  end.

(** The severity a method passes to its rendering path. *)
Definition method_level (m : Method) : Level :=
  match m with
  | MFatal | MFatalf | MFatalln => Lfatal
  | MPanic | MPanicf => Lpanic
  | MError | MErrorf => Lerror
  | MWarn | MWarnf => Lwarn
  | MDebug | MDebugf => Ldebug
  | MInfo | MInfof | MPrint | MPrintf | MPrintln => Linfo
  end.

(** The rendering path a method calls. *)
Definition method_mode (m : Method) : Mode :=
  match m with
  | MFatal | MPanic | MError | MWarn | MDebug | MInfo | MPrint => ModePrint
  | MFatalf | MPanicf | MErrorf | MWarnf | MDebugf | MInfof | MPrintf => ModePrintf
  | MFatalln | MPrintln => ModePrintln
  end.

(** What a method does after its rendering path has returned. *)
Definition epilogue (ext : Extern) (m : Method) (format : string)
    (v : list Value) (l : Logger) : M Logger :=
  match m with
  | MFatal | MFatalf | MFatalln => os_Exit (-1)
  | MPanic => panic (VString (Sprint v))
  | MPanicf => panic (VString (Sprintf ext format v))
  | _ => ret l
  end.

(** The [Print*] methods carry no severity in their name. *)
Definition is_alias (m : Method) : bool :=
  String.prefix "Print" (method_name m).

Definition Mode_eqb (a b : Mode) : bool :=
  match a, b with
  | ModePrint, ModePrint | ModePrintln, ModePrintln
  | ModePrintf, ModePrintf => true
  | _, _ => false
  end.

(** The methods named after a severity, and those among them with a given
    severity and mode. *)
Definition severity_methods : list Method :=
  List.filter (fun m => negb (is_alias m)) all_methods.

Definition alias_methods : list Method := List.filter is_alias all_methods.

Definition entry_points (lvl : Level) (mode : Mode) : list Method :=
  List.filter (fun m => (method_level m =? lvl)%Z && Mode_eqb (method_mode m) mode)
    severity_methods.

(** ** The package-level functions

    Each calls the method of the same name on the logger that the variable
    [Std] holds at the time of the call; that logger is [std]. *)
Module Func.
Definition Info (std : Logger) (v : list Value) : M Logger := Info std v.
Definition Infof (ext : Extern) (std : Logger) (format : string)
    (v : list Value) : M Logger := Infof ext std format v.
Definition Debug (std : Logger) (v : list Value) : M Logger := Debug std v.
Definition Debugf (ext : Extern) (std : Logger) (format : string)
    (v : list Value) : M Logger := Debugf ext std format v.
Definition Warn (std : Logger) (v : list Value) : M Logger := Warn std v.
Definition Warnf (ext : Extern) (std : Logger) (format : string)
    (v : list Value) : M Logger := Warnf ext std format v.
Definition Error (std : Logger) (v : list Value) : M Logger := Error std v.
Definition Errorf (ext : Extern) (std : Logger) (format : string)
    (v : list Value) : M Logger := Errorf ext std format v.
Definition Panic (std : Logger) (v : list Value) : M Logger := Panic std v.
Definition Panicf (ext : Extern) (std : Logger) (format : string)
    (v : list Value) : M Logger := Panicf ext std format v.
Definition Fatal (std : Logger) (v : list Value) : M Logger := Fatal std v.
Definition Fatalf (ext : Extern) (std : Logger) (format : string)
    (v : list Value) : M Logger := Fatalf ext std format v.
Definition Fatalln (std : Logger) (v : list Value) : M Logger := Fatalln std v.
Definition Print (std : Logger) (v : list Value) : M Logger := Print std v.
Definition Printf (ext : Extern) (std : Logger) (format : string)
    (v : list Value) : M Logger := Printf ext std format v.
Definition Println (std : Logger) (v : list Value) : M Logger := Println std v.

(** The function that stands for a method. *)
Definition call (ext : Extern) (m : Method) (std : Logger) (format : string)
    (v : list Value) : M Logger :=
  match m with
  | MFatal => Fatal std v
  | MFatalf => Fatalf ext std format v
  | MFatalln => Fatalln std v
  | MPanic => Panic std v
  | MPanicf => Panicf ext std format v
  | MError => Error std v
  | MErrorf => Errorf ext std format v
  | MWarn => Warn std v
  | MWarnf => Warnf ext std format v
  | MDebug => Debug std v
  | MDebugf => Debugf ext std format v
  | MInfo => Info std v
  | MInfof => Infof ext std format v
  | MPrint => Print std v
  | MPrintf => Printf ext std format v
  | MPrintln => Println std v
  end.
End Func.

(** ** What a run leaves behind *)

(** The world an outcome ends in. *)
Definition world_of {A : Type} (o : Outcome A) : World :=
  match o with
  | Returns _ w => w
  | Exits _ w => w
  | Panics _ w => w
  end.

(** The events a run from [w] to [w'] added. *)
Definition events_since (w w' : World) : list Event :=
  drop (List.length (trace w)) (trace w').

(** The lines handed to a logger's own [Output] by [log], [logln] and
    [logf]: they are the calls with caller depth 4 (the standard library's
    [log.Fatal] calls with depth 2). *)
Fixpoint lines (t : list Event) : list (StdLogger * string) :=
  match t with
  | [] => []
  | EvOutput lg depth s :: t' =>
      if (depth =? 4)%Z then (lg, s) :: lines t' else lines t'
  | _ :: t' => lines t'
  end.

(** The lines a call started in [w] handed over before it ended. *)
Definition new_lines {A : Type} (w : World) (o : Outcome A) : list (StdLogger * string) :=
  lines (events_since w (world_of o)).

(** A close, rename or open that reported an error. *)
Definition failed (e : Event) : bool :=
  match e with
  | EvClose _ (Some _) => true
  | EvRename _ _ (Some _) => true
  | EvOpenFile _ (inr _) => true
  | _ => false
  end.

Definition is_rename (e : Event) : bool :=
  match e with EvRename _ _ _ => true | _ => false end.

Definition is_open (e : Event) : bool :=
  match e with EvOpenFile _ _ => true | _ => false end.

Definition is_close_ok (e : Event) : bool :=
  match e with EvClose _ None => true | _ => false end.

Definition count_events (p : Event -> bool) (t : list Event) : nat :=
  List.length (List.filter p t).

(** The rotation check of a logging call lets the call go on: the logger
    does not rotate, or [rotate] reports no error. *)
Definition rotation_passes (l : Logger) (w : World) : Prop :=
  shouldRotate l = false \/
  exists l' w', rotate l w = Returns (l', None) w'.

(** The logger and the world in which a call that passed the filter
    renders its line. *)
Definition after_rotation (l : Logger) (w : World) : Logger * World :=
  if shouldRotate l then
    match rotate l w with
    | Returns (l', _) w' => (l', w')
    | _ => (l, w)
    end
  else (l, w).

(** The handle, if there is one, is not open. *)
Definition not_open (w : World) (fd : option File) : Prop :=
  forall f ino, fd = Some f -> handles (fs w) !! f <> Some (Some ino).

(** The name [doRotate] archives the current file under. *)
Definition lastName (l : Logger) : string :=
  fileName l +:+ "." +:+ timeSuffix l.

(** The logger that a completed rotation leaves: the new file is its
    output and its handle, the suffix is the one just read. *)
Definition rotated (l : Logger) (suffix : string) (f : File) : Logger :=
  mkLogger (SetOutput (logger l) (FileWriter f)) (level l) (shouldRotate l)
    suffix (fileName l) (Some f).

(** The four ways [doRotate] ends once it has read a suffix [suffix] other
    than the logger's, from world [w] to world [w']: with the logger and the
    error it returns and the events it added. *)
Inductive rotation_run (l : Logger) (suffix : string) (w w' : World) :
    Logger -> option error -> list Event -> Prop :=
| run_close_failed (e : error) :
    not_open w' (fd l) ->
    rotation_run l suffix w w' l (Some e) [EvClose (fd l) (Some e)]
| run_rename_failed (e : error) :
    ~ not_open w (fd l) ->
    not_open w' (fd l) ->
    rotation_run l suffix w w' l (Some e)
      [EvClose (fd l) None; EvRename (fileName l) (lastName l) (Some e)]
| run_open_failed (e : error) :
    ~ not_open w (fd l) ->
    not_open w' (fd l) ->
    rotation_run l suffix w w' l (Some e)
      [EvClose (fd l) None; EvRename (fileName l) (lastName l) None;
       EvOpenFile (fileName l) (inr e)]
| run_done (f : File) :
    ~ not_open w (fd l) ->
    is_Some (dir (fs w) !! fileName l) ->
    dir (fs w') !! lastName l = dir (fs w) !! fileName l ->
    is_Some (dir (fs w') !! fileName l) ->
    handles (fs w') !! f = Some (dir (fs w') !! fileName l) ->
    rotation_run l suffix w w' (rotated l suffix f) None
      [EvClose (fd l) None; EvRename (fileName l) (lastName l) None;
       EvOpenFile (fileName l) (inl f)].

(** The text a rendering path hands to [Output] for a tag. *)
Definition body (ext : Extern) (mode : Mode) (tag : string) (format : string)
    (v : list Value) : string :=
  match mode with
  | ModePrint => Sprint (VString (tag +:+ " ") :: v)
  | ModePrintln => Sprintln (VString (tag +:+ " ") :: v)
  | ModePrintf => tag +:+ " " +:+ Sprintf ext format v
  end.

(** The world after a call of [Output]. *)
Definition written (lg : StdLogger) (calldepth : Z) (s : string) (w : World) : World :=
  world_of (Output lg calldepth s w).

(** Every reading of the clock from now on falls on the day [d]. *)
Definition same_day (d : string) (w : World) : Prop :=
  forall n, (ticks w <= n)%nat -> clock w n = d.

(** Two bytes that are the same up to the case of an ASCII letter. *)
Definition sameLetter (c1 c2 : ascii) : Prop :=
  c1 = c2 \/
  (isUpperASCII c1 = true /\ N_of_ascii c2 = (N_of_ascii c1 + 32)%N) \/
  (isUpperASCII c2 = true /\ N_of_ascii c1 = (N_of_ascii c2 + 32)%N).

(** Two strings that are the same up to the case of ASCII letters. *)
Fixpoint equalFold (s t : string) : Prop :=
  match s, t with
  | EmptyString, EmptyString => True
  | String c1 s', String c2 t' => sameLetter c1 c2 /\ equalFold s' t'
  | _, _ => False
  end.

(** The tag of a severity in the table [levels], and its lower-case form,
    the token that [ParseLevel] compares with. *)
Definition tag_of (lvl : Level) : option string := levels !! Z.to_nat lvl.

Definition token_of (lvl : Level) : option string :=
  mapBytes lowerByte <$> tag_of lvl.

(** ** Worlds and loggers to run the code on *)

Definition ext0 : Extern := mkExtern (fun s => s) (fun s => s) (fun f _ => f).

(** An empty file system, a clock that stays on one day, no faults. *)
Definition world0 : World :=
  mkWorld (fun _ => "20240101") 0 (fun _ => None) 0 (mkFS ∅ ∅ ∅) [].

(** The test's logger with minimum severity info, and one with minimum
    severity fatal. *)
Definition info_only : Logger := New Stderr "" Ldefault Linfo.

Definition fatal_only : Logger := New Stderr "" Ldefault Lfatal.

(** The world and the logger that [NewRotate("test.log", "", Ldefault, Linfo)]
    leaves when it starts from [world0]. *)
Definition test_world : World :=
  mkWorld (fun _ => "20240101") 1 (fun _ => None) 1
    (mkFS {["test.log" := 0%nat]} {[0%nat := []]} {[0%nat := Some 0%nat]})
    [EvOpenFile "test.log" (inl 0%nat)].

Definition test_logger : Logger :=
  mkLogger (log_New (FileWriter 0%nat) "" Ldefault) Linfo true
    "20240101" "test.log" (Some 0%nat).

(** The assignment [Std.timeSuffix = lastSuffix] of TestRotate. *)
Definition set_timeSuffix (l : Logger) (suffix : string) : Logger :=
  mkLogger (logger l) (level l) (shouldRotate l) suffix (fileName l) (fd l).

Definition stale_logger : Logger := set_timeSuffix test_logger "20231231".

(** TestRotate: two lines, the suffix set back by a day, two more lines. *)
Definition TestRotate : M Logger :=
  l <- NewRotate "test.log" "" Ldefault Linfo ;;
  l <- Info l [VString "log 1"] ;;
  l <- Info l [VString "log 2"] ;;
  l <- Info (set_timeSuffix l "20231231") [VString "log 3"] ;;
  Info l [VString "log 4"].

(** The texts in the file at a path, in the order they were written. *)
Definition file_texts (w : World) (path : string) : option (list string) :=
  match dir (fs w) !! path with
  | Some ino => List.map e_text <$> data (fs w) !! ino
  | None => None
  end.

(** ** More to observe: files, invariants, sequences of calls *)

(** The entries of the file at a path. *)
Definition file_entries (w : World) (path : string) : option (list Entry) :=
  match dir (fs w) !! path with
  | Some ino => data (fs w) !! ino
  | None => None
  end.

(** The entry that [Output] writes for a text. *)
Definition entry_of (lg : StdLogger) (s : string) : Entry :=
  mkEntry (prefix lg) (flag lg)
    (if endsWithNewline s then s else s +:+ String newline EmptyString).

(** The logger writes to its own handle, and the handle is open on the
    file at the logger's path: what [NewRotate] sets up. *)
Definition attached (l : Logger) (w : World) : Prop :=
  exists f ino,
    fd l = Some f /\ out (logger l) = FileWriter f /\
    handles (fs w) !! f = Some (Some ino) /\
    dir (fs w) !! fileName l = Some ino.

(** The operating system reports no failure from now on. *)
Definition fault_free (w : World) : Prop :=
  forall n, (syscalls w <= n)%nat -> faults w n = None.

(** The methods that only log: neither fatal nor panic. *)
Definition plain (m : Method) : bool := (method_level m <? Lpanic)%Z.

(** One goroutine making method calls one after the other on the logger
    that the call before left. *)
Fixpoint call_all (ext : Extern) (l : Logger)
    (cs : list (Method * string * list Value)) : M Logger :=
  match cs with
  | [] => ret l
  | (m, format, v) :: cs' =>
      l' <- call ext m l format v ;; call_all ext l' cs'
  end.

(** The text of a call, when its level has a tag. *)
Definition text_of (ext : Extern) (c : Method * string * list Value) : string :=
  let '(m, format, v) := c in
  match tag_of (method_level m) with
  | Some tag => body ext (method_mode m) tag format v
  | None => ""
  end.

(** The calls of a list that the minimum severity lets through. *)
Definition passing (lvl : Level) (cs : list (Method * string * list Value)) :
    list (Method * string * list Value) :=
  List.filter (fun c => negb (method_level (fst (fst c)) <? lvl)%Z) cs.

(** * Proofs *)

Local Open Scope string_scope.
Local Open Scope list_scope.
Local Open Scope Z_scope.

(** ** Levels and strings *)

(** The six levels are the ordinals 0 to 5. *)
Lemma is_level_range (l : Level) : is_level l <-> 0 <= l <= 5.
Proof.
  unfold is_level, all_levels, Ldebug, Linfo, Lwarn, Lerror, Lpanic, Lfatal.
  rewrite !elem_of_cons, elem_of_nil. lia.
Qed.

(** Closes [is_level c] for a constant [c]. *)
Ltac level_const := apply is_level_range; vm_compute; split; discriminate.

Lemma is_level_tag (l : Level) : is_level l -> exists tag, tag_of l = Some tag.
Proof.
  intros H. apply is_level_range in H.
  assert (l = 0 \/ l = 1 \/ l = 2 \/ l = 3 \/ l = 4 \/ l = 5) as Hc by lia.
  destruct Hc as [-> | [-> | [-> | [-> | [-> | ->]]]]]; eexists; reflexivity.
Qed.

Lemma append_cons (c : ascii) (s t : string) :
  String c s +:+ t = String c (s +:+ t).
Proof. reflexivity. Qed.

Lemma append_nil_r (s : string) : s +:+ "" = s.
Proof.
  induction s as [|c s IH]; [reflexivity | now rewrite append_cons, IH].
Qed.

Lemma append_inj_l (s a b : string) : s +:+ a = s +:+ b -> a = b.
Proof.
  induction s as [|c s IH]; intros H; [exact H |].
  rewrite !append_cons in H. injection H. auto.
Qed.

Lemma append_ne_self (s a : string) : a <> "" -> s +:+ a <> s.
Proof.
  intros Ha H. apply Ha. apply (append_inj_l s). now rewrite append_nil_r.
Qed.

Lemma archive_ne_base (base suffix : string) : base +:+ "." +:+ suffix <> base.
Proof. apply append_ne_self. discriminate. Qed.

Lemma archive_inj (base s1 s2 : string) :
  base +:+ "." +:+ s1 = base +:+ "." +:+ s2 -> s1 = s2.
Proof. intros H. apply append_inj_l in H. now injection H. Qed.

(** ** The calls into package os

    Each call returns, adds its one event to the trace and leaves the
    clock and the faults as they were. *)

Lemma Close_cases (fd : option File) (path : string) (w : World) :
  exists r w',
    Close fd path w = Returns r w' /\
    trace w' = (trace w ++ [EvClose fd r])%list /\
    clock w' = clock w /\ ticks w' = ticks w /\ faults w' = faults w /\
    dir (fs w') = dir (fs w) /\
    not_open w' fd /\
    (r = None -> ~ not_open w fd).
Proof.
  unfold Close, not_open. destruct fd as [f|].
  - destruct (handles (fs w) !! f) as [[ino|]|] eqn:Hh.
    + cbn. eexists _, _. split; [reflexivity|]. cbn.
      repeat split; try reflexivity.
      * intros f' ino' [= <-]. now rewrite lookup_insert_eq.
      * intros _ Hn. now apply (Hn f ino).
    + eexists _, _. split; [reflexivity|]. cbn.
      repeat split; try reflexivity; try discriminate.
      intros f' ino' [= <-]. rewrite Hh. discriminate.
    + eexists _, _. split; [reflexivity|]. cbn.
      repeat split; try reflexivity; try discriminate.
      intros f' ino' [= <-]. rewrite Hh. discriminate.
  - eexists _, _. split; [reflexivity|]. cbn.
    repeat split; try reflexivity; discriminate.
Qed.

Lemma Rename_cases (old new : string) (w : World) :
  exists r w',
    Rename old new w = Returns r w' /\
    trace w' = (trace w ++ [EvRename old new r])%list /\
    clock w' = clock w /\ ticks w' = ticks w /\ faults w' = faults w /\
    handles (fs w') = handles (fs w) /\
    (r = None ->
       is_Some (dir (fs w) !! old) /\
       dir (fs w') !! new = dir (fs w) !! old /\
       (new <> old -> dir (fs w') !! old = None)).
Proof.
  unfold Rename. cbn.
  destruct (faults w (syscalls w)) as [msg|] eqn:Hf.
  - eexists _, _. split; [reflexivity|]. cbn.
    repeat split; try reflexivity; discriminate.
  - destruct (dir (fs w) !! old) as [ino|] eqn:Hd.
    + eexists _, _. split; [reflexivity|]. cbn.
      repeat split; try reflexivity.
      * eauto.
      * now rewrite lookup_insert_eq.
      * intros Hne. rewrite lookup_insert_ne by done. apply lookup_delete_eq.
    + eexists _, _. split; [reflexivity|]. cbn.
      repeat split; try reflexivity; discriminate.
Qed.

Lemma OpenFile_cases (name : string) (w : World) :
  exists r w',
    OpenFile name w = Returns r w' /\
    trace w' = (trace w ++ [EvOpenFile name r])%list /\
    clock w' = clock w /\ ticks w' = ticks w /\ faults w' = faults w /\
    (forall p, p <> name -> dir (fs w') !! p = dir (fs w) !! p) /\
    match r with
    | inr _ => handles (fs w') = handles (fs w)
    | inl f =>
        handles (fs w) !! f = None /\
        is_Some (dir (fs w') !! name) /\
        handles (fs w') !! f = Some (dir (fs w') !! name)
    end.
Proof.
  unfold OpenFile. cbn.
  destruct (faults w (syscalls w)) as [msg|] eqn:Hf.
  - eexists _, _. split; [reflexivity|]. cbn. repeat split; reflexivity.
  - eexists _, _. split; [reflexivity|]. cbn.
    assert (Hfresh : handles (fs w) !! fresh (dom (handles (fs w))) = None).
    { apply not_elem_of_dom. apply is_fresh. }
    destruct (dir (fs w) !! name) as [ino|] eqn:Hd; cbn.
    + repeat split; try reflexivity; try assumption.
      * rewrite Hd. eauto.
      * rewrite lookup_insert_eq. now rewrite Hd.
    + repeat split; try reflexivity; try assumption.
      * intros p Hp. now rewrite lookup_insert_ne.
      * rewrite lookup_insert_eq. eauto.
      * now rewrite !lookup_insert_eq.
Qed.

(** ** The rotation check, case by case *)

Lemma eqb_false_of_ne (a b : string) : a <> b -> String.eqb a b = false.
Proof. intros H. now apply String.eqb_neq. Qed.

Lemma doRotate_fresh (l : Logger) (w : World) :
  clock w (ticks w) = timeSuffix l ->
  doRotate l w = Returns (l, None) (tick w).
Proof.
  intros H. unfold doRotate, bind, Now_Format.
  rewrite H, String.eqb_refl. reflexivity.
Qed.

Lemma doRotate_stale (l : Logger) (w : World) :
  clock w (ticks w) <> timeSuffix l ->
  exists l' err w' evs,
    doRotate l w = Returns (l', err) w' /\
    trace w' = (trace w ++ evs)%list /\
    clock w' = clock w /\ ticks w' = S (ticks w) /\ faults w' = faults w /\
    rotation_run l (clock w (ticks w)) w w' l' err evs.
Proof.
  intros Hne. unfold doRotate, bind, Now_Format.
  rewrite (eqb_false_of_ne _ _ Hne).
  destruct (Close_cases (fd l) (fileName l) (tick w))
    as (r1 & w1 & E1 & T1 & C1 & K1 & F1 & D1 & N1 & O1).
  simpl in T1, C1, K1, F1, D1.
  rewrite E1. destruct r1 as [e1|].
  { exists l, (Some e1), w1, [EvClose (fd l) (Some e1)].
    repeat split; try assumption. now constructor. }
  assert (O : ~ not_open w (fd l)) by exact (O1 eq_refl).
  destruct (Rename_cases (fileName l) (lastName l) w1)
    as (r2 & w2 & E2 & T2 & C2 & K2 & F2 & H2 & R2).
  change (fileName l +:+ "." +:+ timeSuffix l) with (lastName l).
  rewrite E2.
  assert (N2 : not_open w2 (fd l)).
  { intros f ino Hf. rewrite H2. now apply N1. }
  destruct r2 as [e2|].
  { exists l, (Some e2), w2,
      [EvClose (fd l) None; EvRename (fileName l) (lastName l) (Some e2)].
    repeat split; try congruence.
    - rewrite T2, T1. now rewrite <- app_assoc.
    - now constructor. }
  destruct (R2 eq_refl) as (S2 & A2 & B2).
  destruct (OpenFile_cases (fileName l) w2)
    as (r3 & w3 & E3 & T3 & C3 & K3 & F3 & P3 & H3).
  rewrite E3.
  assert (Tr : trace w3 =
    (trace w ++ [EvClose (fd l) None; EvRename (fileName l) (lastName l) None;
                 EvOpenFile (fileName l) r3])%list).
  { rewrite T3, T2, T1. now rewrite <- !app_assoc. }
  destruct r3 as [f|e3].
  - exists (rotated l (clock w (ticks w)) f), None, w3,
      [EvClose (fd l) None; EvRename (fileName l) (lastName l) None;
       EvOpenFile (fileName l) (inl f)].
    repeat split; try congruence.
    destruct H3 as (H3a & H3b & H3c).
    constructor; try assumption.
    + now rewrite <- D1.
    + rewrite P3 by apply archive_ne_base. rewrite A2. now rewrite D1.
  - exists l, (Some e3), w3,
      [EvClose (fd l) None; EvRename (fileName l) (lastName l) None;
       EvOpenFile (fileName l) (inr e3)].
    repeat split; try congruence.
    constructor; try assumption.
    intros f ino Hf. rewrite H3. now apply N2.
Qed.

(** [rotate] always returns; it is a no-op when one of its two readings
    of the clock gives the logger's suffix, and a run of [doRotate]
    otherwise. *)
Lemma rotate_fresh (l : Logger) (w : World) :
  clock w (ticks w) = timeSuffix l ->
  rotate l w = Returns (l, None) (tick w).
Proof.
  intros H. unfold rotate, bind, Now_Format.
  rewrite H, String.eqb_refl. reflexivity.
Qed.

Lemma rotate_second_fresh (l : Logger) (w : World) :
  clock w (ticks w) <> timeSuffix l ->
  clock w (S (ticks w)) = timeSuffix l ->
  rotate l w = Returns (l, None) (tick (tick w)).
Proof.
  intros H1 H2. unfold rotate, bind, Now_Format.
  rewrite (eqb_false_of_ne _ _ H1). cbn [negb].
  rewrite (doRotate_fresh l (tick w)) by exact H2. reflexivity.
Qed.

Lemma rotate_stale (l : Logger) (w : World) :
  clock w (ticks w) <> timeSuffix l ->
  clock w (S (ticks w)) <> timeSuffix l ->
  exists l' err w' evs,
    rotate l w = Returns (l', err) w' /\
    trace w' = (trace w ++ evs)%list /\
    clock w' = clock w /\ ticks w' = S (S (ticks w)) /\ faults w' = faults w /\
    rotation_run l (clock w (S (ticks w))) w w' l' err evs.
Proof.
  intros H1 H2. unfold rotate, bind, Now_Format.
  rewrite (eqb_false_of_ne _ _ H1). cbn [negb].
  destruct (doRotate_stale l (tick w) H2)
    as (l' & err & w' & evs & E & T & C & K & F & R).
  rewrite E. exists l', err, w', evs.
  split; [destruct err; reflexivity|].
  repeat split; try assumption.
  destruct R; constructor; assumption.
Qed.

(** ** A rotation that succeeds, step by step *)

Lemma Close_open (f : File) (ino : nat) (path : string) (w : World) :
  handles (fs w) !! f = Some (Some ino) ->
  faults w (syscalls w) = None ->
  Close (Some f) path w =
  Returns None
    (emit (EvClose (Some f) None)
       (set_fs (mkFS (dir (fs w)) (data (fs w)) (<[f := None]> (handles (fs w))))
          (snd (syscall w)))).
Proof. intros Hh Hf. unfold Close. rewrite Hh. simpl. now rewrite Hf. Qed.

Lemma Rename_present (old new : string) (ino : nat) (w : World) :
  dir (fs w) !! old = Some ino ->
  faults w (syscalls w) = None ->
  Rename old new w =
  Returns None
    (emit (EvRename old new None)
       (set_fs (mkFS (<[new := ino]> (delete old (dir (fs w)))) (data (fs w))
                  (handles (fs w)))
          (snd (syscall w)))).
Proof. intros Hd Hf. unfold Rename. simpl. now rewrite Hf, Hd. Qed.

Lemma OpenFile_new (name : string) (w : World) :
  dir (fs w) !! name = None ->
  faults w (syscalls w) = None ->
  OpenFile name w =
  Returns (inl (fresh (dom (handles (fs w)))))
    (emit (EvOpenFile name (inl (fresh (dom (handles (fs w))))))
       (set_fs (mkFS (<[name := fresh (dom (data (fs w)))]> (dir (fs w)))
                  (<[fresh (dom (data (fs w))) := []]> (data (fs w)))
                  (<[fresh (dom (handles (fs w))) :=
                       Some (fresh (dom (data (fs w))))]> (handles (fs w))))
          (snd (syscall w)))).
Proof. intros Hd Hf. unfold OpenFile. simpl. now rewrite Hf, Hd. Qed.

Lemma OpenFile_existing (name : string) (ino : nat) (w : World) :
  dir (fs w) !! name = Some ino ->
  faults w (syscalls w) = None ->
  OpenFile name w =
  Returns (inl (fresh (dom (handles (fs w)))))
    (emit (EvOpenFile name (inl (fresh (dom (handles (fs w))))))
       (set_fs (mkFS (dir (fs w)) (data (fs w))
                  (<[fresh (dom (handles (fs w))) := Some ino]> (handles (fs w))))
          (snd (syscall w)))).
Proof. intros Hd Hf. unfold OpenFile. simpl. now rewrite Hf, Hd. Qed.

(** With the handle open, a file at the path and no failure in its three
    system calls, [doRotate] on a stale suffix goes through: it moves the
    file to the archive name and opens a new, empty file at the path. *)
Lemma doRotate_succeeds (l : Logger) (w : World) (f : File) (ino ino' : nat) :
  fd l = Some f ->
  handles (fs w) !! f = Some (Some ino) ->
  dir (fs w) !! fileName l = Some ino' ->
  clock w (ticks w) <> timeSuffix l ->
  faults w (syscalls w) = None ->
  faults w (S (syscalls w)) = None ->
  faults w (S (S (syscalls w))) = None ->
  exists f' w',
    doRotate l w = Returns (rotated l (clock w (ticks w)) f', None) w' /\
    dir (fs w') =
    <[fileName l := fresh (dom (data (fs w)))]>
      (<[lastName l := ino']> (delete (fileName l) (dir (fs w)))) /\
    data (fs w') = <[fresh (dom (data (fs w))) := []]> (data (fs w)) /\
    handles (fs w') !! f' = Some (Some (fresh (dom (data (fs w))))) /\
    clock w' = clock w /\ ticks w' = S (ticks w) /\ faults w' = faults w /\
    syscalls w' = S (S (S (syscalls w))).
Proof.
  intros Hfd Hh Hd Hne F0 F1 F2.
  unfold doRotate, bind, Now_Format.
  rewrite (eqb_false_of_ne _ _ Hne), Hfd.
  rewrite (Close_open f ino) by assumption.
  change (fileName l +:+ "." +:+ timeSuffix l) with (lastName l).
  rewrite (Rename_present _ _ ino') by assumption.
  rewrite OpenFile_new.
  - eexists _, _. split; [reflexivity|]. simpl. repeat split.
    now rewrite lookup_insert_eq.
  - simpl. rewrite lookup_insert_ne by (unfold lastName; apply archive_ne_base).
    apply lookup_delete_eq.
  - exact F2.
Qed.

(** The same for the rotation check, [rotate], with both readings stale. *)
Lemma rotate_succeeds (l : Logger) (w : World) (f : File) (ino ino' : nat) :
  fd l = Some f ->
  handles (fs w) !! f = Some (Some ino) ->
  dir (fs w) !! fileName l = Some ino' ->
  clock w (ticks w) <> timeSuffix l ->
  clock w (S (ticks w)) <> timeSuffix l ->
  faults w (syscalls w) = None ->
  faults w (S (syscalls w)) = None ->
  faults w (S (S (syscalls w))) = None ->
  exists f' w',
    rotate l w = Returns (rotated l (clock w (S (ticks w))) f', None) w' /\
    dir (fs w') =
    <[fileName l := fresh (dom (data (fs w)))]>
      (<[lastName l := ino']> (delete (fileName l) (dir (fs w)))) /\
    data (fs w') = <[fresh (dom (data (fs w))) := []]> (data (fs w)) /\
    handles (fs w') !! f' = Some (Some (fresh (dom (data (fs w))))) /\
    clock w' = clock w /\ ticks w' = S (S (ticks w)) /\ faults w' = faults w /\
    syscalls w' = S (S (S (syscalls w))).
Proof.
  intros Hfd Hh Hd H1 H2 F0 F1 F2.
  destruct (doRotate_succeeds l (tick w) f ino ino' Hfd Hh Hd H2 F0 F1 F2)
    as (f' & w' & E & Ed & Ea & Eh & Ec & Et & Ef & Es).
  exists f', w'. split; [|repeat split; assumption].
  unfold rotate, bind, Now_Format.
  rewrite (eqb_false_of_ne _ _ H1). simpl. now rewrite E.
Qed.

(** ** Traces *)

Lemma events_since_app (w w' : World) (evs : list Event) :
  trace w' = (trace w ++ evs)%list -> events_since w w' = evs.
Proof. intros H. unfold events_since. rewrite H. apply drop_app_length. Qed.

Lemma events_since_refl (w : World) : events_since w w = [].
Proof. apply events_since_app. now rewrite app_nil_r. Qed.

Lemma lines_app (t1 t2 : list Event) :
  lines (t1 ++ t2) = (lines t1 ++ lines t2)%list.
Proof.
  induction t1 as [|e t1 IH]; [reflexivity|].
  destruct e as [| | |lg depth s]; simpl; try exact IH.
  destruct (depth =? 4); simpl; now rewrite IH.
Qed.

(** A run of [doRotate] hands no line to a logger, reports an error
    exactly when one of its steps failed, and keeps the logger on an
    error. *)
Lemma rotation_run_lines l suffix w w' l' err evs :
  rotation_run l suffix w w' l' err evs -> lines evs = [].
Proof. destruct 1; reflexivity. Qed.

Lemma rotation_run_failed l suffix w w' l' err evs :
  rotation_run l suffix w w' l' err evs ->
  (Exists (fun e => failed e = true) evs <-> err <> None).
Proof.
  destruct 1; split; intros Hx; try discriminate; try congruence.
  - repeat constructor.
  - apply Exists_cons_tl. repeat constructor.
  - do 2 apply Exists_cons_tl. repeat constructor.
  - exfalso. rewrite !Exists_cons, Exists_nil in Hx. simpl in Hx.
    intuition discriminate.
Qed.

Lemma rotation_run_error l suffix w w' l' err evs :
  rotation_run l suffix w w' l' err evs -> err <> None -> l' = l.
Proof. destruct 1; congruence. Qed.

(** Every run of [rotate]: it returns, the clock and the faults are those
    of the start, and either nothing was done or [doRotate] ran on a stale
    suffix. *)
Lemma rotate_cases (l : Logger) (w : World) :
  exists l' err w' evs,
    rotate l w = Returns (l', err) w' /\
    trace w' = (trace w ++ evs)%list /\
    clock w' = clock w /\ faults w' = faults w /\
    (ticks w < ticks w' <= S (S (ticks w)))%nat /\
    ((l' = l /\ err = None /\ evs = [] /\ fs w' = fs w /\
      syscalls w' = syscalls w /\
      (clock w (ticks w) = timeSuffix l \/
       clock w (S (ticks w)) = timeSuffix l)) \/
     (clock w (ticks w) <> timeSuffix l /\
      clock w (S (ticks w)) <> timeSuffix l /\
      rotation_run l (clock w (S (ticks w))) w w' l' err evs)).
Proof.
  destruct (decide (clock w (ticks w) = timeSuffix l)) as [H1|H1].
  { exists l, None, (tick w), []. rewrite (rotate_fresh l w H1).
    simpl. rewrite app_nil_r. repeat split; try lia. left. tauto. }
  destruct (decide (clock w (S (ticks w)) = timeSuffix l)) as [H2|H2].
  { exists l, None, (tick (tick w)), [].
    rewrite (rotate_second_fresh l w H1 H2).
    simpl. rewrite app_nil_r. repeat split; try lia. left. tauto. }
  destruct (rotate_stale l w H1 H2) as (l' & err & w' & evs & E & T & C & K & F & R).
  exists l', err, w', evs. repeat split; try assumption; try lia.
  right. tauto.
Qed.

Lemma rotate_lines (l : Logger) (w : World) l' err w' :
  rotate l w = Returns (l', err) w' -> lines (events_since w w') = [].
Proof.
  intros E.
  destruct (rotate_cases l w) as (l1 & e1 & w1 & evs & E1 & T & _ & _ & _ & H).
  rewrite E in E1. injection E1 as <- <- <-.
  rewrite (events_since_app _ _ _ T).
  destruct H as [(_ & _ & -> & _) | (_ & _ & R)]; [reflexivity|].
  eapply rotation_run_lines; eassumption.
Qed.

(** [Output] adds its event and nothing else to the trace. *)
Lemma trace_Write (wr : Writer) (e : Entry) (w : World) :
  trace (Write wr e w) = trace w.
Proof.
  unfold Write. destruct wr; try reflexivity.
  destruct (handles (fs w) !! f) as [[ino|]|]; try reflexivity.
  simpl. destruct (faults w (syscalls w)); reflexivity.
Qed.

Lemma trace_written (lg : StdLogger) (depth : Z) (s : string) (w : World) :
  trace (written lg depth s w) = (trace w ++ [EvOutput lg depth s])%list.
Proof. unfold written, Output. simpl. now rewrite trace_Write. Qed.

Lemma Output_written (lg : StdLogger) (depth : Z) (s : string) (w : World) :
  Output lg depth s w = Returns tt (written lg depth s w).
Proof. reflexivity. Qed.

(** ** The rendering paths *)

(** The three rendering paths share their shape. *)
Lemma render_filtered ext mode l lvl format v w :
  lvl < level l -> render ext mode l lvl format v w = Returns l w.
Proof.
  intros H. apply Z.ltb_lt in H.
  destruct mode; unfold render, log, logln, logf; rewrite H; reflexivity.
Qed.

Lemma render_passed ext mode l lvl format v w :
  level l <= lvl ->
  render ext mode l lvl format v w =
  (l1 <- (if shouldRotate l then
            r <- rotate l ;;
            match snd r with
            | Some err => log_Fatal [VString "log rotate failed."; VError err]
            | None => ret (fst r)
            end
          else ret l) ;;
   match tag_of lvl with
   | None => panic (indexOutOfRange lvl)
   | Some tag => _ <- Output (logger l1) 4 (body ext mode tag format v) ;; ret l1
   end) w.
Proof.
  intros H. apply Z.ltb_ge in H.
  destruct mode; unfold render, log, logln, logf; rewrite H; reflexivity.
Qed.

Lemma render_rotation_failed ext mode l lvl format v w l' err w' :
  level l <= lvl -> shouldRotate l = true ->
  rotate l w = Returns (l', Some err) w' ->
  render ext mode l lvl format v w =
  Exits 1 (written log_std 2 (Sprint [VString "log rotate failed."; VError err]) w').
Proof.
  intros H Hr E. rewrite render_passed by exact H.
  unfold bind. rewrite Hr, E. reflexivity.
Qed.

Lemma after_rotation_passes l w :
  rotation_passes l w ->
  (shouldRotate l = false /\ after_rotation l w = (l, w)) \/
  (shouldRotate l = true /\
   rotate l w = Returns (fst (after_rotation l w), None) (snd (after_rotation l w))).
Proof.
  unfold after_rotation. intros [H | (l' & w' & E)].
  - left. now rewrite H.
  - destruct (shouldRotate l); [right | left; auto].
    rewrite E. auto.
Qed.

Lemma render_emits ext mode l lvl format v w tag :
  level l <= lvl -> tag_of lvl = Some tag -> rotation_passes l w ->
  render ext mode l lvl format v w =
  Returns (fst (after_rotation l w))
    (written (logger (fst (after_rotation l w))) 4 (body ext mode tag format v)
       (snd (after_rotation l w))).
Proof.
  intros H Ht Hp. rewrite render_passed by exact H.
  destruct (after_rotation_passes l w Hp) as [(Hr & E) | (Hr & E)].
  - rewrite E. unfold bind. rewrite Hr, Ht. reflexivity.
  - unfold bind at 1 2. rewrite Hr, E. simpl. rewrite Ht. reflexivity.
Qed.

Lemma after_rotation_events l w :
  rotation_passes l w ->
  exists evs,
    trace (snd (after_rotation l w)) = trace w ++ evs /\ lines evs = [].
Proof.
  intros Hp.
  destruct (after_rotation_passes l w Hp) as [(Hr & E) | (Hr & E)].
  - rewrite E. exists []. simpl. now rewrite app_nil_r.
  - destruct (rotate_cases l w) as (l1 & e1 & w1 & evs & E1 & T & _ & _ & _ & H).
    rewrite E in E1. injection E1 as <- <- <-.
    exists evs. split; [exact T|].
    destruct H as [(_ & _ & -> & _) | (_ & _ & R)]; [reflexivity|].
    eapply rotation_run_lines; eassumption.
Qed.

Lemma new_lines_emits ext mode l lvl format v w tag :
  level l <= lvl -> tag_of lvl = Some tag -> rotation_passes l w ->
  new_lines w (render ext mode l lvl format v w) =
  [(logger (fst (after_rotation l w)), body ext mode tag format v)].
Proof.
  intros H Ht Hp. rewrite (render_emits _ _ _ _ _ _ _ tag) by assumption.
  unfold new_lines. simpl.
  destruct (after_rotation_events l w Hp) as (evs & T & L).
  erewrite events_since_app.
  2:{ rewrite trace_written, T, <- app_assoc. reflexivity. }
  rewrite lines_app, L. reflexivity.
Qed.

Lemma new_lines_filtered ext mode l lvl format v w :
  lvl < level l -> new_lines w (render ext mode l lvl format v w) = [].
Proof.
  intros H. rewrite render_filtered by exact H.
  unfold new_lines. simpl. now rewrite events_since_refl.
Qed.

Lemma new_lines_rotation_failed ext mode l lvl format v w l' err w' :
  level l <= lvl -> shouldRotate l = true ->
  rotate l w = Returns (l', Some err) w' ->
  new_lines w (render ext mode l lvl format v w) = [].
Proof.
  intros H Hr E. erewrite render_rotation_failed by eassumption.
  unfold new_lines. simpl.
  destruct (rotate_cases l w) as (l1 & e1 & w1 & evs & E1 & T & _ & _ & _ & Hc).
  rewrite E in E1. injection E1 as <- <- <-.
  erewrite events_since_app.
  2:{ rewrite trace_written, T, <- app_assoc. reflexivity. }
  rewrite lines_app. simpl. rewrite app_nil_r.
  destruct Hc as [(_ & _ & -> & _) | (_ & _ & R)]; [reflexivity|].
  eapply rotation_run_lines; eassumption.
Qed.

Lemma bind_ret_r {A : Type} (m : M A) (w : World) : bind m ret w = m w.
Proof. unfold bind, ret. now destruct (m w). Qed.

(** Every method is its rendering path followed by its epilogue. *)
Lemma call_render ext m l format v w :
  call ext m l format v w =
  (l' <- render ext (method_mode m) l (method_level m) format v ;;
   epilogue ext m format v l') w.
Proof.
  destruct m; try reflexivity; simpl;
    change (fun l' : Logger => ret l') with (@ret Logger);
    now rewrite bind_ret_r.
Qed.

Lemma Func_call ext m std format v : Func.call ext m std format v = call ext m std format v.
Proof. now destruct m. Qed.

(** ** Filtering, fatal and panic calls, failed rotations *)

(** The epilogue of a method leaves the world of its rendering path. *)
Lemma world_of_call ext m l format v w :
  world_of (call ext m l format v w) =
  world_of (render ext (method_mode m) l (method_level m) format v w).
Proof.
  rewrite call_render. unfold bind.
  destruct (render ext (method_mode m) l (method_level m) format v w);
    destruct m; reflexivity.
Qed.

Lemma new_lines_call ext m l format v w :
  new_lines w (call ext m l format v w) =
  new_lines w (render ext (method_mode m) l (method_level m) format v w).
Proof. unfold new_lines. now rewrite world_of_call. Qed.

(** The rotation check of a logger that rotates either passes or reports
    an error. *)
Lemma rotation_passes_or_fails l w :
  rotation_passes l w \/
  (shouldRotate l = true /\ exists l' err w', rotate l w = Returns (l', Some err) w').
Proof.
  destruct (shouldRotate l) eqn:Hr; [|left; now left].
  destruct (rotate_cases l w) as (l' & err & w' & evs & E & _).
  destruct err as [e|].
  - right. split; [reflexivity|]. eauto.
  - left. right. eauto.
Qed.

Lemma rotation_passes_not_failed l w l' err w' :
  rotation_passes l w -> shouldRotate l = true ->
  rotate l w = Returns (l', Some err) w' -> False.
Proof.
  intros [H | (l1 & w1 & E1)] Hr E; [congruence|].
  rewrite E in E1. discriminate.
Qed.

(** C1. For every message severity and every minimum severity, the three
    rendering paths hand a line to the logger's output if and only if the
    message severity is at least the minimum, under the order
    debug < info < warn < error < panic < fatal of the enum; a call below
    the minimum returns at once and changes nothing.  (The line is handed
    over once the rotation check has let the call go on.) *)
Theorem severity_filter ext mode l lvl format v w :
  is_level lvl ->
  Ldebug < Linfo < Lwarn /\ Lwarn < Lerror < Lpanic /\ Lpanic < Lfatal /\
  (lvl < level l -> render ext mode l lvl format v w = Returns l w) /\
  (rotation_passes l w ->
   (new_lines w (render ext mode l lvl format v w) <> [] <-> level l <= lvl)) /\
  (rotation_passes l w -> level l <= lvl ->
   exists tag,
     tag_of lvl = Some tag /\
     new_lines w (render ext mode l lvl format v w) =
     [(logger (fst (after_rotation l w)), body ext mode tag format v)]).
Proof.
  intros Hl. destruct (is_level_tag lvl Hl) as (tag & Ht).
  split; [unfold Ldebug, Linfo, Lwarn; lia|].
  split; [unfold Lwarn, Lerror, Lpanic; lia|].
  split; [unfold Lpanic, Lfatal; lia|].
  split; [apply render_filtered|].
  split.
  - intros Hp. split.
    + intros Hn. destruct (Z.lt_ge_cases lvl (level l)) as [Hlt|Hge]; [|exact Hge].
      exfalso. apply Hn. now apply new_lines_filtered.
    + intros Hge. rewrite (new_lines_emits _ _ _ _ _ _ _ tag) by assumption.
      discriminate.
  - intros Hp Hge. exists tag. split; [exact Ht|].
    now apply new_lines_emits.
Qed.

(** C4. For every minimum severity among the six levels, a fatal call is
    not filtered out: the process exits with a status other than zero,
    and the line has been handed to the logger's output before, with
    exit code -1, whenever the rotation check let the call go on. *)
Theorem fatal_never_filtered ext m l format v w :
  m ∈ [MFatal; MFatalf; MFatalln] ->
  is_level (level l) ->
  (Lfatal <? level l) = false /\
  exists code w',
    call ext m l format v w = Exits code w' /\
    exit_status code <> 0 /\
    (rotation_passes l w ->
     code = -1 /\
     w' = written (logger (fst (after_rotation l w))) 4
            (body ext (method_mode m) "FATAL" format v)
            (snd (after_rotation l w)) /\
     new_lines w (call ext m l format v w) =
     [(logger (fst (after_rotation l w)),
       body ext (method_mode m) "FATAL" format v)]).
Proof.
  intros Hm Hl. apply is_level_range in Hl.
  assert (Hlev : method_level m = Lfatal).
  { rewrite !elem_of_cons, elem_of_nil in Hm.
    destruct Hm as [-> | [-> | [-> | []]]]; reflexivity. }
  assert (Hge : level l <= method_level m) by (rewrite Hlev; unfold Lfatal; lia).
  split; [apply Z.ltb_ge; unfold Lfatal; lia|].
  assert (Ht : tag_of (method_level m) = Some "FATAL") by now rewrite Hlev.
  destruct (rotation_passes_or_fails l w) as [Hp | (Hr & l' & err & w' & E)].
  - exists (-1), (written (logger (fst (after_rotation l w))) 4
                   (body ext (method_mode m) "FATAL" format v)
                   (snd (after_rotation l w))).
    assert (Ec : call ext m l format v w = Exits (-1)
                   (written (logger (fst (after_rotation l w))) 4
                      (body ext (method_mode m) "FATAL" format v)
                      (snd (after_rotation l w)))).
    { rewrite call_render. unfold bind.
      rewrite (render_emits _ _ _ _ _ _ _ "FATAL") by assumption.
      rewrite !elem_of_cons, elem_of_nil in Hm.
      destruct Hm as [-> | [-> | [-> | []]]]; reflexivity. }
    split; [exact Ec|]. split; [discriminate|].
    intros _. split; [reflexivity|]. split; [reflexivity|].
    rewrite new_lines_call. now apply new_lines_emits.
  - exists 1, (written log_std 2
                 (Sprint [VString "log rotate failed."; VError err]) w').
    split.
    + rewrite call_render. unfold bind.
      now rewrite (render_rotation_failed _ _ _ _ _ _ _ l' err w').
    + split; [discriminate|].
      intros Hp. exfalso. eapply rotation_passes_not_failed; eassumption.
Qed.

(** C5, as the code has it.  The minimum severity of a logger is at most
    panic or it is fatal.  In the first case a panic call whose rotation
    check lets it go on hands its line to the logger's output and then
    raises a panic whose value is the text of its operands.  In the second
    case the call is filtered before any rotation check: whatever the
    state of the rotation, nothing is written, the world is as it was, and
    the panic is raised all the same. *)
Theorem panic_raises ext m l format v w :
  m ∈ [MPanic; MPanicf] ->
  is_level (level l) ->
  (level l <= Lpanic \/ level l = Lfatal) /\
  (level l <= Lpanic ->
   rotation_passes l w ->
   call ext m l format v w =
   Panics (VString (match m with
                    | MPanicf => Sprintf ext format v
                    | _ => Sprint v
                    end))
     (written (logger (fst (after_rotation l w))) 4
        (body ext (method_mode m) "PANIC" format v)
        (snd (after_rotation l w))) /\
   new_lines w (call ext m l format v w) =
   [(logger (fst (after_rotation l w)),
     body ext (method_mode m) "PANIC" format v)]) /\
  (level l = Lfatal ->
   call ext m l format v w =
   Panics (VString (match m with
                    | MPanicf => Sprintf ext format v
                    | _ => Sprint v
                    end)) w /\
   new_lines w (call ext m l format v w) = []).
Proof.
  intros Hm Hl. apply is_level_range in Hl.
  assert (Hlev : method_level m = Lpanic).
  { rewrite !elem_of_cons, elem_of_nil in Hm.
    destruct Hm as [-> | [-> | []]]; reflexivity. }
  split; [unfold Lpanic, Lfatal; lia|]. split.
  - intros Hle Hp.
    assert (Hge : level l <= method_level m) by now rewrite Hlev.
    assert (Ht : tag_of (method_level m) = Some "PANIC") by now rewrite Hlev.
    split.
    + rewrite call_render. unfold bind.
      rewrite (render_emits _ _ _ _ _ _ _ "PANIC") by assumption.
      rewrite !elem_of_cons, elem_of_nil in Hm.
      destruct Hm as [-> | [-> | []]]; reflexivity.
    + rewrite new_lines_call. now apply new_lines_emits.
  - intros Hf.
    assert (Hlt : method_level m < level l)
      by (rewrite Hlev, Hf; unfold Lpanic, Lfatal; lia).
    split.
    + rewrite call_render. unfold bind.
      rewrite render_filtered by assumption.
      rewrite !elem_of_cons, elem_of_nil in Hm.
      destruct Hm as [-> | [-> | []]]; reflexivity.
    + rewrite new_lines_call. now apply new_lines_filtered.
Qed.

(** C8. When a step of the rotation (close, rename or open) fails, the
    rotation check reports an error; and a logging call whose rotation
    check reports an error ends the process with exit code 1 after the
    standard library's logger has printed the error: the call hands no
    line to the logger's output and does not return. *)
Theorem rotation_failure_is_fatal ext m l format v w :
  shouldRotate l = true ->
  level l <= method_level m ->
  (Exists (fun e => failed e = true) (events_since w (world_of (rotate l w))) ->
   exists l' err w', rotate l w = Returns (l', Some err) w') /\
  (forall l' err w',
     rotate l w = Returns (l', Some err) w' ->
     call ext m l format v w =
     Exits 1 (written log_std 2
                (Sprint [VString "log rotate failed."; VError err]) w') /\
     exit_status 1 <> 0 /\
     new_lines w (call ext m l format v w) = []) /\
  (Exists (fun e => failed e = true) (events_since w (world_of (rotate l w))) ->
   exists w'',
     call ext m l format v w = Exits 1 w'' /\
     new_lines w (call ext m l format v w) = []).
Proof.
  intros Hr Hge.
  assert (Hfail :
    Exists (fun e => failed e = true) (events_since w (world_of (rotate l w))) ->
    exists l' err w', rotate l w = Returns (l', Some err) w').
  { intros Hex.
    destruct (rotate_cases l w) as (l' & err & w' & evs & E & T & _ & _ & _ & Hc).
    rewrite E in Hex. simpl in Hex. rewrite (events_since_app _ _ _ T) in Hex.
    destruct Hc as [(_ & _ & -> & _) | (_ & _ & R)].
    - now apply Exists_nil in Hex.
    - apply (rotation_run_failed _ _ _ _ _ _ _ R) in Hex.
      destruct err as [e|]; [eauto | congruence]. }
  assert (Hexit : forall l' err w',
    rotate l w = Returns (l', Some err) w' ->
    call ext m l format v w =
    Exits 1 (written log_std 2
               (Sprint [VString "log rotate failed."; VError err]) w') /\
    exit_status 1 <> 0 /\
    new_lines w (call ext m l format v w) = []).
  { intros l' err w' E. split; [|split; [discriminate|]].
    - rewrite call_render. unfold bind.
      now rewrite (render_rotation_failed _ _ _ _ _ _ _ l' err w').
    - rewrite new_lines_call.
      eapply new_lines_rotation_failed; eassumption. }
  split; [exact Hfail|]. split; [exact Hexit|].
  intros Hex. destruct (Hfail Hex) as (l' & err & w' & E).
  destruct (Hexit l' err w' E) as (Ec & _ & Hn). eauto.
Qed.

(** ** Rotation *)

(** C2. When the rotation check finds the suffix stale (at both of its
    readings of the clock), every rename it makes moves the file at the
    base path to the base path, a dot and the old suffix, which is never
    the name with the suffix just read; when the three steps succeed the
    file that was at the base path is the one at that name; the logger's
    suffix changes only in a run whose rename succeeded, to the suffix
    just read; and the rename is made: with the logger's handle open, a
    file at the base path and no failure reported by the three system
    calls, the check ends without error, the rename is in the trace and
    the suffix is the one just read. *)
Theorem rotation_archives_old_suffix (l : Logger) (w : World) :
  clock w (ticks w) <> timeSuffix l ->
  clock w (S (ticks w)) <> timeSuffix l ->
  exists l' err w',
    rotate l w = Returns (l', err) w' /\
    (forall old tgt r,
       EvRename old tgt r ∈ events_since w w' ->
       old = fileName l /\
       tgt = fileName l +:+ "." +:+ timeSuffix l /\
       tgt <> fileName l +:+ "." +:+ clock w (S (ticks w))) /\
    (err = None ->
     exists f,
       events_since w w' =
       [EvClose (fd l) None;
        EvRename (fileName l) (fileName l +:+ "." +:+ timeSuffix l) None;
        EvOpenFile (fileName l) (inl f)] /\
       is_Some (dir (fs w) !! fileName l) /\
       dir (fs w') !! (fileName l +:+ "." +:+ timeSuffix l) =
       dir (fs w) !! fileName l /\
       l' = rotated l (clock w (S (ticks w))) f) /\
    (err <> None -> l' = l) /\
    (timeSuffix l' <> timeSuffix l ->
     timeSuffix l' = clock w (S (ticks w)) /\
     EvRename (fileName l) (fileName l +:+ "." +:+ timeSuffix l) None
       ∈ events_since w w') /\
    (forall f ino,
       fd l = Some f ->
       handles (fs w) !! f = Some (Some ino) ->
       is_Some (dir (fs w) !! fileName l) ->
       faults w (syscalls w) = None ->
       faults w (S (syscalls w)) = None ->
       faults w (S (S (syscalls w))) = None ->
       err = None /\
       timeSuffix l' = clock w (S (ticks w)) /\
       EvRename (fileName l) (fileName l +:+ "." +:+ timeSuffix l) None
         ∈ events_since w w').
Proof.
  intros H1 H2.
  destruct (rotate_stale l w H1 H2) as (l' & err & w' & evs & E & T & _ & _ & _ & R).
  exists l', err, w'. split; [exact E|].
  rewrite (events_since_app _ _ _ T).
  assert (Hname : fileName l +:+ "." +:+ timeSuffix l <>
                  fileName l +:+ "." +:+ clock w (S (ticks w))).
  { intros Heq. apply archive_inj in Heq. congruence. }
  assert (Hgo : forall f ino,
            fd l = Some f ->
            handles (fs w) !! f = Some (Some ino) ->
            is_Some (dir (fs w) !! fileName l) ->
            faults w (syscalls w) = None ->
            faults w (S (syscalls w)) = None ->
            faults w (S (S (syscalls w))) = None ->
            exists f', l' = rotated l (clock w (S (ticks w))) f' /\ err = None).
  { intros f ino Hfd Hh [ino' Hd] F0 F1 F2.
    destruct (rotate_succeeds l w f ino ino' Hfd Hh Hd H1 H2 F0 F1 F2)
      as (f' & w'' & E' & _).
    rewrite E in E'. injection E' as -> -> _. eauto. }
  unfold lastName in R.
  assert (Hin : forall (evs0 : list Event) old tgt r,
            (forall e, e ∈ evs0 -> is_rename e = true ->
               exists r0, e = EvRename (fileName l)
                                (fileName l +:+ "." +:+ timeSuffix l) r0) ->
            EvRename old tgt r ∈ evs0 ->
            old = fileName l /\
            tgt = fileName l +:+ "." +:+ timeSuffix l /\
            tgt <> fileName l +:+ "." +:+ clock w (S (ticks w))).
  { intros evs0 old tgt r Hall Hmem.
    destruct (Hall _ Hmem eq_refl) as (r0 & [= -> -> _]). auto. }
  destruct R as [e Hn | e Ho Hn | e Ho Hn | f Ho Hs Hd Hs' Hh].
  - split; [|split; [|split; [|split]]].
    + intros old tgt r. apply Hin. intros e0 He0.
      rewrite !elem_of_cons, elem_of_nil in He0.
      destruct He0 as [-> | []]. discriminate.
    + discriminate.
    + reflexivity.
    + congruence.
    + intros f0 ino0 A1 A2 A3 A4 A5 A6.
      destruct (Hgo f0 ino0 A1 A2 A3 A4 A5 A6) as (f' & _ & ?). discriminate.
  - split; [|split; [|split; [|split]]].
    + intros old tgt r. apply Hin. intros e0 He0.
      rewrite !elem_of_cons, elem_of_nil in He0.
      destruct He0 as [-> | [-> | []]]; [discriminate | eauto].
    + discriminate.
    + reflexivity.
    + congruence.
    + intros f0 ino0 A1 A2 A3 A4 A5 A6.
      destruct (Hgo f0 ino0 A1 A2 A3 A4 A5 A6) as (f' & _ & ?). discriminate.
  - split; [|split; [|split; [|split]]].
    + intros old tgt r. apply Hin. intros e0 He0.
      rewrite !elem_of_cons, elem_of_nil in He0.
      destruct He0 as [-> | [-> | [-> | []]]]; [discriminate | eauto | discriminate].
    + discriminate.
    + reflexivity.
    + congruence.
    + intros f0 ino0 A1 A2 A3 A4 A5 A6.
      destruct (Hgo f0 ino0 A1 A2 A3 A4 A5 A6) as (f' & _ & ?). discriminate.
  - split; [|split; [|split; [|split]]].
    + intros old tgt r. apply Hin. intros e0 He0.
      rewrite !elem_of_cons, elem_of_nil in He0.
      destruct He0 as [-> | [-> | [-> | []]]]; [discriminate | eauto | discriminate].
    + intros _. exists f. repeat split; assumption.
    + congruence.
    + intros _. split; [reflexivity|].
      rewrite !elem_of_cons. auto.
    + intros _ _ _ _ _ _ _ _. split; [reflexivity|]. split; [reflexivity|].
      rewrite !elem_of_cons. auto.
Qed.

(** A second run of [doRotate] on a handle that the first run left closed
    stops at its close. *)
Lemma rotation_run_closed l suffix w w' l' err evs :
  rotation_run l suffix w w' l' err evs ->
  not_open w (fd l) ->
  exists e, l' = l /\ err = Some e /\ evs = [EvClose (fd l) (Some e)].
Proof. destruct 1; intros Hn; try contradiction. eauto. Qed.

(** C3. Within one calendar day the rotation check is idempotent.  When
    the suffix read equals the logger's, [rotate] (and [doRotate], at its
    second comparison) returns the logger as it was and touches neither
    the file system nor the trace.  Two checks in a row on one day make at
    most one rename, at most one open and at most one successful close;
    and after a check that reported no error the next one does nothing. *)
Theorem rotation_idempotent_within_day (d : string) (l : Logger) (w : World) :
  same_day d w ->
  (timeSuffix l = d ->
   rotate l w = Returns (l, None) (tick w) /\
   doRotate l w = Returns (l, None) (tick w) /\
   fs (tick w) = fs w /\ trace (tick w) = trace w /\
   syscalls (tick w) = syscalls w) /\
  exists l1 e1 w1 l2 e2 w2,
    rotate l w = Returns (l1, e1) w1 /\
    rotate l1 w1 = Returns (l2, e2) w2 /\
    (count_events is_rename (events_since w w2) <= 1)%nat /\
    (count_events is_open (events_since w w2) <= 1)%nat /\
    (count_events is_close_ok (events_since w w2) <= 1)%nat /\
    (e1 = None ->
     l2 = l1 /\ e2 = None /\ events_since w1 w2 = [] /\ fs w2 = fs w1).
Proof.
  intros Hday.
  assert (D0 : clock w (ticks w) = d) by (apply Hday; lia).
  assert (D1 : clock w (S (ticks w)) = d) by (apply Hday; lia).
  assert (D2 : clock w (S (S (ticks w))) = d) by (apply Hday; lia).
  assert (D3 : clock w (S (S (S (ticks w)))) = d) by (apply Hday; lia).
  split.
  { intros Hd. split; [apply rotate_fresh; congruence|].
    split; [apply doRotate_fresh; congruence|]. repeat split. }
  destruct (decide (timeSuffix l = d)) as [Hd | Hd].
  - exists l, None, (tick w), l, None, (tick (tick w)).
    split; [apply rotate_fresh; congruence|].
    split; [apply rotate_fresh; simpl; congruence|].
    unfold events_since, count_events. simpl. rewrite drop_all. simpl.
    repeat split; lia.
  - assert (H0 : clock w (ticks w) <> timeSuffix l) by congruence.
    assert (H1 : clock w (S (ticks w)) <> timeSuffix l) by congruence.
    destruct (rotate_stale l w H0 H1)
      as (l1 & e1 & w1 & evs1 & E1 & T1 & C1 & K1 & _ & R1).
    destruct e1 as [e1|].
    + (* the first check failed: the handle is closed, the logger kept *)
      assert (Hl : l1 = l) by (eapply rotation_run_error; [eassumption | discriminate]).
      subst l1.
      assert (Hn : not_open w1 (fd l)) by (inversion R1; assumption).
      assert (H2 : clock w1 (ticks w1) <> timeSuffix l) by (rewrite C1, K1; congruence).
      assert (H3 : clock w1 (S (ticks w1)) <> timeSuffix l) by (rewrite C1, K1; congruence).
      destruct (rotate_stale l w1 H2 H3)
        as (l2 & e2 & w2 & evs2 & E2 & T2 & _ & _ & _ & R2).
      destruct (rotation_run_closed _ _ _ _ _ _ _ R2 Hn) as (e & -> & -> & ->).
      exists l, (Some e1), w1, l, (Some e), w2.
      split; [exact E1|]. split; [exact E2|].
      rewrite (events_since_app w w2 (evs1 ++ [EvClose (fd l) (Some e)]))
        by (rewrite T2, T1; now rewrite <- app_assoc).
      unfold count_events. rewrite !List.filter_app, !length_app. simpl.
      split; [|split; [|split]]; try discriminate;
        inversion R1; simpl; lia.
    + (* the first check rotated: the logger is on the day's suffix *)
      assert (Hs : timeSuffix l1 = d).
      { inversion R1; subst. simpl. exact D1. }
      assert (H2 : clock w1 (ticks w1) = timeSuffix l1) by (rewrite C1, K1; congruence).
      exists l1, None, w1, l1, None, (tick w1).
      split; [exact E1|]. split; [now apply rotate_fresh|].
      rewrite (events_since_app w (tick w1) evs1) by exact T1.
      unfold count_events.
      split; [|split; [|split]]; try (inversion R1; simpl; lia).
      intros _. unfold events_since. simpl. rewrite drop_all. repeat split.
Qed.

(** ** ParseLevel *)

Lemma N_of_ascii_inj (c1 c2 : ascii) : N_of_ascii c1 = N_of_ascii c2 -> c1 = c2.
Proof.
  intros H. rewrite <- (ascii_N_embedding c1), <- (ascii_N_embedding c2).
  now rewrite H.
Qed.

Lemma isUpperASCII_range (c : ascii) :
  isUpperASCII c = true <-> (65 <= N_of_ascii c <= 90)%N.
Proof. unfold isUpperASCII. rewrite andb_true_iff, !N.leb_le. tauto. Qed.

Lemma lowerByte_upper (c : ascii) :
  isUpperASCII c = true ->
  N_of_ascii (lowerByte c) = (N_of_ascii c + 32)%N.
Proof.
  intros H. unfold lowerByte. rewrite H. apply N_ascii_embedding.
  apply isUpperASCII_range in H. lia.
Qed.

Lemma lowerByte_other (c : ascii) : isUpperASCII c = false -> lowerByte c = c.
Proof. intros H. unfold lowerByte. now rewrite H. Qed.

(** Two bytes have the same lower-case form exactly when they are the
    same up to the case of an ASCII letter. *)
Lemma lowerByte_sameLetter (c1 c2 : ascii) :
  lowerByte c1 = lowerByte c2 <-> sameLetter c1 c2.
Proof.
  unfold sameLetter. split.
  - intros H. apply (f_equal N_of_ascii) in H.
    destruct (isUpperASCII c1) eqn:U1, (isUpperASCII c2) eqn:U2.
    + rewrite !lowerByte_upper in H by assumption.
      left. apply N_of_ascii_inj. lia.
    + rewrite lowerByte_upper, (lowerByte_other c2) in H by assumption.
      right. left. split; [reflexivity | now rewrite H].
    + rewrite (lowerByte_other c1), lowerByte_upper in H by assumption.
      right. right. split; [reflexivity | exact H].
    + rewrite !lowerByte_other in H by assumption.
      left. now apply N_of_ascii_inj.
  - intros [-> | [(U & H) | (U & H)]]; [reflexivity | |].
    + apply N_of_ascii_inj. rewrite lowerByte_upper by exact U.
      rewrite lowerByte_other; [now rewrite H|].
      apply isUpperASCII_range in U.
      apply not_true_is_false. rewrite isUpperASCII_range. lia.
    + apply N_of_ascii_inj. rewrite (lowerByte_upper c2) by exact U.
      rewrite lowerByte_other; [exact H|].
      apply isUpperASCII_range in U.
      apply not_true_is_false. rewrite isUpperASCII_range. lia.
Qed.

Lemma mapBytes_equalFold (s t : string) :
  mapBytes lowerByte s = mapBytes lowerByte t <-> equalFold s t.
Proof.
  revert t. induction s as [|c s IH]; intros [|c' t]; simpl;
    try (split; [discriminate | contradiction]); [tauto|].
  rewrite <- IH, <- lowerByte_sameLetter. split.
  - intros [= H1 H2]. auto.
  - intros [H1 H2]. now rewrite H1, H2.
Qed.

Lemma sameLetter_ASCII (c1 c2 : ascii) :
  sameLetter c1 c2 -> isASCII c2 = true -> isASCII c1 = true.
Proof.
  unfold isASCII. rewrite !N.ltb_lt.
  intros [-> | [(U & H) | (U & H)]] Ha; [exact Ha | lia |].
  apply isUpperASCII_range in U. lia.
Qed.

Lemma equalFold_ASCII (s t : string) :
  equalFold s t -> allASCII t = true -> allASCII s = true.
Proof.
  revert t. induction s as [|c s IH]; intros [|c' t]; simpl; try tauto.
  intros [H1 H2]. rewrite !andb_true_iff. intros [A1 A2].
  split; [eapply sameLetter_ASCII | eapply IH]; eassumption.
Qed.

(** On a string that is one of the tags up to case, [ToLower] gives the
    tag's token. *)
Lemma ToLower_equalFold ext (s tag : string) :
  allASCII tag = true -> equalFold s tag ->
  ToLower ext s = mapBytes lowerByte tag.
Proof.
  intros Ha He. unfold ToLower.
  rewrite (equalFold_ASCII _ _ He Ha). now apply mapBytes_equalFold.
Qed.

Lemma Sprintf_invalid_level ext (s : string) :
  Sprintf ext "invalid log Level: %q" [VString s] =
  "invalid log Level: " +:+ Quote ext s.
Proof.
  unfold Sprintf.
  assert (H : doPrintf ext "invalid log Level: %q" [VString s] =
              Some ("invalid log Level: " +:+ (Quote ext s +:+ "")))
    by reflexivity.
  rewrite H. now rewrite append_nil_r.
Qed.

Lemma level_cases (lvl : Level) :
  is_level lvl ->
  lvl = Ldebug \/ lvl = Linfo \/ lvl = Lwarn \/ lvl = Lerror \/
  lvl = Lpanic \/ lvl = Lfatal.
Proof.
  intros H. apply is_level_range in H.
  unfold Ldebug, Linfo, Lwarn, Lerror, Lpanic, Lfatal. lia.
Qed.

(** [ParseLevel] is decided by the lowered text. *)
Lemma ParseLevel_token ext (s : string) (lvl : Level) (tok : string) :
  is_level lvl -> token_of lvl = Some tok -> ToLower ext s = tok ->
  ParseLevel ext s = (lvl, None).
Proof.
  intros Hl Ht Hs. unfold ParseLevel. rewrite Hs.
  destruct (level_cases lvl Hl) as [-> | [-> | [-> | [-> | [-> | ->]]]]];
    injection Ht as <-; reflexivity.
Qed.

Lemma ParseLevel_other ext (s : string) :
  (forall lvl tok, is_level lvl -> token_of lvl = Some tok -> ToLower ext s <> tok) ->
  ParseLevel ext s =
  (Ldebug, Some (errorString ("invalid log Level: " +:+ Quote ext s))).
Proof.
  intros H. unfold ParseLevel.
  assert (Hk : forall lvl tok, is_level lvl -> token_of lvl = Some tok ->
               String.eqb (ToLower ext s) tok = false).
  { intros lvl tok Hl Ht. apply String.eqb_neq. eauto. }
  rewrite (Hk Lpanic "panic"), (Hk Lfatal "fatal"), (Hk Lerror "error"),
    (Hk Lwarn "warn"), (Hk Linfo "info"), (Hk Ldebug "debug");
    try reflexivity; try level_const.
  unfold fmt_Errorf. now rewrite Sprintf_invalid_level.
Qed.

Lemma ParseLevel_ok ext (s : string) :
  snd (ParseLevel ext s) = None ->
  is_level (fst (ParseLevel ext s)) /\
  token_of (fst (ParseLevel ext s)) = Some (ToLower ext s).
Proof.
  unfold ParseLevel.
  repeat match goal with
  | |- context [String.eqb (ToLower ext s) ?tok] =>
      let E := fresh "E" in
      destruct (String.eqb (ToLower ext s) tok) eqn:E;
      [ apply String.eqb_eq in E; rewrite E; intros _; simpl;
        split; [level_const | reflexivity]
      | clear E ]
  end.
  discriminate.
Qed.

(** C6. [ParseLevel] reads the six tokens without regard to case: a text
    that is a tag up to the case of its letters gives the severity of the
    tag and no error.  Every text whose lower-case form is not one of the
    six tokens (for an ASCII text: that is no tag up to case) gives an
    error, whose message is the quoted text after the words
    "invalid log Level: "; and no other text is accepted. *)
Theorem parse_level ext (s : string) :
  (forall lvl tag,
     is_level lvl -> tag_of lvl = Some tag -> equalFold s tag ->
     ParseLevel ext s = (lvl, None)) /\
  ((forall lvl tok, is_level lvl -> token_of lvl = Some tok -> ToLower ext s <> tok) ->
   exists err,
     ParseLevel ext s = (Ldebug, Some err) /\
     Error_ err = "invalid log Level: " +:+ Quote ext s) /\
  (allASCII s = true ->
   (forall lvl tag, is_level lvl -> tag_of lvl = Some tag -> ~ equalFold s tag) ->
   exists err,
     ParseLevel ext s = (Ldebug, Some err) /\
     Error_ err = "invalid log Level: " +:+ Quote ext s) /\
  (snd (ParseLevel ext s) = None ->
   is_level (fst (ParseLevel ext s)) /\
   token_of (fst (ParseLevel ext s)) = Some (ToLower ext s)).
Proof.
  split; [|split; [|split]].
  - intros lvl tag Hl Ht He.
    apply (ParseLevel_token ext s lvl (mapBytes lowerByte tag)); [exact Hl | |].
    + unfold token_of. now rewrite Ht.
    + apply ToLower_equalFold; [|exact He].
      destruct (level_cases lvl Hl) as [-> | [-> | [-> | [-> | [-> | ->]]]]];
        injection Ht as <-; reflexivity.
  - intros H. eexists. split; [now apply ParseLevel_other | reflexivity].
  - intros Ha H.
    assert (Ho : forall lvl tok, is_level lvl -> token_of lvl = Some tok ->
                 ToLower ext s <> tok).
    { intros lvl tok Hl Ht Hs.
      unfold token_of in Ht.
      destruct (tag_of lvl) as [tag|] eqn:Hg; [|discriminate].
      injection Ht as <-. apply (H lvl tag Hl Hg).
      apply mapBytes_equalFold. unfold ToLower in Hs. now rewrite Ha in Hs. }
    eexists. split; [now apply ParseLevel_other | reflexivity].
  - now apply ParseLevel_ok.
Qed.

(** ** The rendered text *)

Lemma doPrint_after_string (a : list Value) :
  doPrint false true a = doPrint true false a.
Proof. destruct a as [|arg rest]; [reflexivity|]. simpl. now rewrite andb_false_r. Qed.

(** [Sprint] puts nothing between a leading string and what follows. *)
Lemma Sprint_tag (t : string) (v : list Value) :
  Sprint (VString t :: v) = t +:+ Sprint v.
Proof. unfold Sprint. simpl. now rewrite doPrint_after_string. Qed.

(** [Sprintln] puts a space after a leading string when an operand
    follows. *)
Lemma Sprintln_tag (t : string) (v : list Value) :
  Sprintln (VString t :: v) =
  t +:+ (match v with [] => "" | _ => " " end) +:+ Sprintln v.
Proof. unfold Sprintln. destruct v; reflexivity. Qed.

Lemma append_assoc (a b c : string) : (a +:+ b) +:+ c = a +:+ (b +:+ c).
Proof.
  induction a as [|x a IH]; [reflexivity|].
  now rewrite !append_cons, IH.
Qed.

(** In the [Print] and [Printf] modes the text is the tag, one space and
    the formatted operands. *)
Lemma body_Print ext tag format v :
  body ext ModePrint tag format v = tag +:+ " " +:+ Sprint v.
Proof. unfold body. rewrite Sprint_tag. apply append_assoc. Qed.

Lemma body_Printf ext tag format v :
  body ext ModePrintf tag format v = tag +:+ " " +:+ Sprintf ext format v.
Proof. reflexivity. Qed.

(** In the [Println] mode a second space follows the tag when there is an
    operand. *)
Lemma body_Println ext tag format v :
  body ext ModePrintln tag format v =
  tag +:+ " " +:+ (match v with [] => "" | _ => " " end) +:+ Sprintln v.
Proof. unfold body. rewrite Sprintln_tag. apply append_assoc. Qed.

(** The table has one tag for each of the six severities, all different. *)
Lemma levels_table :
  List.length levels = List.length all_levels /\ NoDup levels /\
  forall lvl, 0 <= lvl -> (is_level lvl <-> is_Some (tag_of lvl)).
Proof.
  split; [reflexivity|]. split.
  - unfold levels.
    repeat (constructor;
            [rewrite ?elem_of_cons, elem_of_nil; intuition discriminate|]).
    constructor.
  - intros lvl H0. split.
    + intros H. destruct (is_level_tag lvl H) as (t & Ht). eauto.
    + intros [t Ht]. apply is_level_range. unfold tag_of in Ht.
      apply lookup_lt_Some in Ht. simpl in Ht. lia.
Qed.

(** The formatting scenario of the tests: [Infof("Info: %s", "foo")]. *)
Example Infof_foo :
  new_lines world0 (Infof ext0 Std "Info: %s" [VString "foo"] world0) =
  [(logger Std, "INFO Info: foo")].
Proof. reflexivity. Qed.

Example Info_foo :
  new_lines world0 (Info Std [VString "Info: foo"] world0) =
  [(logger Std, "INFO Info: foo")].
Proof. reflexivity. Qed.

(** C7. [Println("a")] on the default logger: the text handed to the
    output has two spaces after the tag, where the tag, one space and
    [Sprintln("a")] has one. *)
Theorem println_two_spaces :
  new_lines world0 (Println Std [VString "a"] world0) =
  [(logger Std, "INFO  a" +:+ String newline "")] /\
  "INFO" +:+ " " +:+ Sprintln [VString "a"] = "INFO a" +:+ String newline "" /\
  new_lines world0 (Println Std [VString "a"] world0) <>
  [(logger Std, "INFO" +:+ " " +:+ Sprintln [VString "a"])].
Proof. split; [reflexivity|]. split; [reflexivity|]. discriminate. Qed.

(** ** The table of methods *)

Lemma all_methods_complete (m : Method) : m ∈ all_methods.
Proof. unfold all_methods. destruct m; set_solver. Qed.

(** C9, as the code has it.  The logger exports sixteen methods.
    Thirteen are named after a severity: every severity has one method in
    the Print mode and one in the Printf mode, and fatal alone has one in
    the Println mode.  Three more, Print, Printf and Println, are aliases
    at severity info.  Each method is the rendering path of its mode at
    its severity, followed by its epilogue. *)
Theorem exported_methods :
  (forall m, m ∈ all_methods) /\
  List.length all_methods = 16%nat /\
  List.length severity_methods = 13%nat /\
  (forall lvl,
     is_level lvl ->
     List.length (entry_points lvl ModePrint) = 1%nat /\
     List.length (entry_points lvl ModePrintf) = 1%nat /\
     List.length (entry_points lvl ModePrintln) =
     (if (lvl =? Lfatal)%Z then 1%nat else 0%nat)) /\
  alias_methods = [MPrint; MPrintf; MPrintln] /\
  List.map method_level alias_methods = [Linfo; Linfo; Linfo] /\
  List.map method_mode alias_methods = [ModePrint; ModePrintf; ModePrintln] /\
  (forall ext m l format v w,
     call ext m l format v w =
     (l' <- render ext (method_mode m) l (method_level m) format v ;;
      epilogue ext m format v l') w).
Proof.
  split; [apply all_methods_complete|].
  split; [reflexivity|]. split; [reflexivity|]. split.
  - intros lvl Hl.
    destruct (level_cases lvl Hl) as [-> | [-> | [-> | [-> | [-> | ->]]]]];
      repeat split; reflexivity.
  - split; [reflexivity|]. split; [reflexivity|]. split; [reflexivity|].
    intros. apply call_render.
Qed.

(** C9, as stated, fails: eighteen entry points, one for each severity and
    mode, and two aliases is not what the logger exports.  No method named
    after warn renders in the Println mode, thirteen methods are named
    after a severity, and there are three aliases. *)
Lemma not_eighteen_entry_points :
  is_level Lwarn /\
  entry_points Lwarn ModePrintln = [] /\
  List.length severity_methods = 13%nat /\
  List.length alias_methods = 3%nat /\
  ~ ((forall lvl mode,
        is_level lvl -> List.length (entry_points lvl mode) = 1%nat) /\
     List.length severity_methods = 18%nat /\
     List.length alias_methods = 2%nat).
Proof.
  split; [level_const|]. repeat (split; [reflexivity|]).
  intros (_ & H & _). discriminate H.
Qed.

(** C10. The default logger, as the package sets it up, writes to standard
    error with an empty prefix and the flags [Lshortfile | LstdFlags]
    (standard timestamp and short file:line), has minimum severity debug
    and does not rotate.  So each package-level function, called while the
    variable still holds it, hands exactly one line with the tag of its
    severity to standard error; once the variable holds a logger with a
    higher minimum, as in the tests, [Debug] writes nothing. *)
Theorem default_logger :
  out (logger Std) = Stderr /\
  prefix (logger Std) = "" /\
  flag (logger Std) = Z.lor Lshortfile (Z.lor Ldate Ltime) /\
  level Std = Ldebug /\
  shouldRotate Std = false /\
  (forall lvl, is_level lvl -> (lvl <? level Std) = false) /\
  (forall ext m format v w,
     exists tag,
       tag_of (method_level m) = Some tag /\
       new_lines w (Func.call ext m Std format v w) =
       [(logger Std, body ext (method_mode m) tag format v)]) /\
  new_lines world0
    (Func.Debug (New Stderr "" Ldefault Linfo) [VString "Debug: bar"] world0) = [].
Proof.
  split; [reflexivity|]. split; [reflexivity|]. split; [reflexivity|].
  split; [reflexivity|]. split; [reflexivity|]. split.
  - intros lvl Hl. apply is_level_range in Hl. apply Z.ltb_ge.
    unfold Std, New, Ldebug. simpl. lia.
  - split; [|reflexivity].
    intros ext m format v w.
    assert (Hl : is_level (method_level m)) by (destruct m; simpl; level_const).
    destruct (is_level_tag _ Hl) as (tag & Ht).
    exists tag. split; [exact Ht|].
    rewrite Func_call, new_lines_call.
    rewrite (new_lines_emits _ _ _ _ _ _ _ tag).
    + reflexivity.
    + apply is_level_range in Hl. unfold Std, New, Ldebug. simpl. lia.
    + exact Ht.
    + now left.
Qed.

(** C5, at a concrete input: with minimum severity fatal, [Panic("boom")]
    hands no line to the output and panics. *)
Lemma panic_filtered_at_fatal :
  is_level (level fatal_only) /\
  Panic fatal_only [VString "boom"] world0 = Panics (VString "boom") world0 /\
  new_lines world0 (Panic fatal_only [VString "boom"] world0) = [].
Proof. split; [level_const|]. split; reflexivity. Qed.

(** A level past the end of [levels], passed to a rendering path that
    does not filter it, makes the runtime panic at the index, with the
    bounds error of the index and the length. *)
Example index_out_of_range :
  log (New Stderr "" Ldefault Ldebug) 6 [VString "x"] world0 =
  Panics (VError (boundsError 6 6)) world0 /\
  Error_ (boundsError 6 6) =
  "runtime error: index out of range [6] with length 6".
Proof. split; reflexivity. Qed.

(** ** The scenarios of the tests *)

(** [NewRotate("test.log", "", Ldefault, Linfo)] in an empty directory. *)
Example NewRotate_test :
  NewRotate "test.log" "" Ldefault Linfo world0 = Returns test_logger test_world.
Proof. reflexivity. Qed.

(** TestRotate: the first two lines are in the archive, the last two in
    the new file at the base path, and one rename was made. *)
Example TestRotate_files :
  let w := world_of (TestRotate world0) in
  let nl := String newline "" in
  file_texts w "test.log.20231231" =
    Some ["INFO log 1" +:+ nl; "INFO log 2" +:+ nl] /\
  file_texts w "test.log" =
    Some ["INFO log 3" +:+ nl; "INFO log 4" +:+ nl] /\
  count_events is_rename (trace w) = 1%nat.
Proof. vm_compute. repeat split. Qed.

(** ** The theorems at concrete inputs *)

(** C1 at [Warn("x")] on a logger with minimum severity info. *)
Lemma severity_filter_witness :
  is_level Lwarn /\
  new_lines world0
    (render ext0 ModePrint info_only Lwarn "" [VString "x"] world0) =
  [(logger info_only, "WARN x")].
Proof.
  assert (Hl : is_level Lwarn) by level_const.
  split; [exact Hl|].
  destruct (severity_filter ext0 ModePrint info_only Lwarn "" [VString "x"]
              world0 Hl) as (_ & _ & _ & _ & _ & H).
  destruct H as (tag & Ht & Hn).
  - left. reflexivity.
  - vm_compute. discriminate.
  - rewrite Hn. injection Ht as <-. reflexivity.
Defined.

(** C2 at the rotation of TestRotate: the check ends without error, the
    rename is made, and the archive is "test.log.20231231". *)
Lemma rotation_archives_old_suffix_witness :
  clock test_world (ticks test_world) <> timeSuffix stale_logger /\
  clock test_world (S (ticks test_world)) <> timeSuffix stale_logger /\
  exists l' err w',
    rotate stale_logger test_world = Returns (l', err) w' /\
    err = None /\
    timeSuffix l' = "20240101" /\
    EvRename "test.log" "test.log.20231231" None ∈ events_since test_world w' /\
    forall old tgt r,
      EvRename old tgt r ∈ events_since test_world w' ->
      tgt = "test.log.20231231".
Proof.
  assert (H1 : clock test_world (ticks test_world) <> timeSuffix stale_logger)
    by (vm_compute; discriminate).
  assert (H2 : clock test_world (S (ticks test_world)) <> timeSuffix stale_logger)
    by (vm_compute; discriminate).
  split; [exact H1|]. split; [exact H2|].
  destruct (rotation_archives_old_suffix stale_logger test_world H1 H2)
    as (l' & err & w' & E & Hren & _ & _ & _ & Hgo).
  exists l', err, w'. split; [exact E|].
  destruct (Hgo 0%nat 0%nat) as (He & Hs & Hr);
    [reflexivity | reflexivity | eexists; reflexivity
    | reflexivity | reflexivity | reflexivity |].
  split; [exact He|]. split; [exact Hs|]. split; [exact Hr|].
  intros old tgt r Hin. destruct (Hren old tgt r Hin) as (_ & Ht & _).
  rewrite Ht. reflexivity.
Defined.

(** C3 at two checks on the day "20240101" after the suffix was set back. *)
Lemma rotation_idempotent_within_day_witness :
  same_day "20240101" test_world /\
  exists l1 e1 w1 l2 e2 w2,
    rotate stale_logger test_world = Returns (l1, e1) w1 /\
    rotate l1 w1 = Returns (l2, e2) w2 /\
    (count_events is_rename (events_since test_world w2) <= 1)%nat.
Proof.
  assert (Hd : same_day "20240101" test_world) by (intros n _; reflexivity).
  split; [exact Hd|].
  destruct (rotation_idempotent_within_day "20240101" stale_logger test_world Hd)
    as (_ & l1 & e1 & w1 & l2 & e2 & w2 & E1 & E2 & Hr & _).
  exists l1, e1, w1, l2, e2, w2. auto.
Defined.

(** C4 at [Fatal("x")] on a logger with minimum severity info. *)
Lemma fatal_never_filtered_witness :
  MFatal ∈ [MFatal; MFatalf; MFatalln] /\
  is_level (level info_only) /\
  exists code w',
    call ext0 MFatal info_only "" [VString "x"] world0 = Exits code w' /\
    exit_status code <> 0.
Proof.
  assert (Hm : MFatal ∈ [MFatal; MFatalf; MFatalln]) by constructor.
  assert (Hl : is_level (level info_only)) by level_const.
  split; [exact Hm|]. split; [exact Hl|].
  destruct (fatal_never_filtered ext0 MFatal info_only "" [VString "x"] world0
              Hm Hl) as (_ & code & w' & E & Hs & _).
  exists code, w'. auto.
Defined.

(** C5 at [Panic("x")] on a logger with minimum severity info: the line
    is handed to the output and the panic carries the text. *)
Lemma panic_raises_witness :
  MPanic ∈ [MPanic; MPanicf] /\
  is_level (level info_only) /\
  level info_only <= Lpanic /\
  rotation_passes info_only world0 /\
  (exists w',
     call ext0 MPanic info_only "" [VString "x"] world0 =
     Panics (VString "x") w') /\
  new_lines world0 (call ext0 MPanic info_only "" [VString "x"] world0) =
  [(logger info_only, "PANIC x")].
Proof.
  assert (Hm : MPanic ∈ [MPanic; MPanicf]) by constructor.
  assert (Hl : is_level (level info_only)) by level_const.
  assert (Hle : level info_only <= Lpanic) by (vm_compute; discriminate).
  assert (Hp : rotation_passes info_only world0) by (left; reflexivity).
  split; [exact Hm|]. split; [exact Hl|]. split; [exact Hle|]. split; [exact Hp|].
  destruct (panic_raises ext0 MPanic info_only "" [VString "x"] world0 Hm Hl)
    as (_ & Hw & _).
  destruct (Hw Hle Hp) as (E & Hn).
  split; [eexists; exact E | exact Hn].
Defined.

(** C8 at [Info("x")] on a stale rotating logger whose file was never
    opened: the close fails and the process exits. *)
Lemma rotation_failure_is_fatal_witness :
  shouldRotate stale_logger = true /\
  level stale_logger <= method_level MInfo /\
  exists w',
    call ext0 MInfo stale_logger "" [VString "x"] world0 = Exits 1 w' /\
    new_lines world0 (call ext0 MInfo stale_logger "" [VString "x"] world0) = [].
Proof.
  assert (Hr : shouldRotate stale_logger = true) by reflexivity.
  assert (Hg : level stale_logger <= method_level MInfo) by (vm_compute; discriminate).
  split; [exact Hr|]. split; [exact Hg|].
  destruct (rotation_failure_is_fatal ext0 MInfo stale_logger "" [VString "x"]
              world0 Hr Hg) as (_ & _ & H).
  apply H. vm_compute. apply Exists_cons_hd. reflexivity.
Defined.

(** * Further properties of the package *)

(** ** How a method call can end *)

Lemma method_level_is_level (m : Method) : is_level (method_level m).
Proof. destruct m; simpl; level_const. Qed.

(** The three ways a rendering path at one of the six levels ends. *)
Lemma render_outcome ext mode l lvl format v w :
  is_level lvl ->
  (lvl < level l /\ render ext mode l lvl format v w = Returns l w) \/
  (level l <= lvl /\ rotation_passes l w /\
   exists tag,
     tag_of lvl = Some tag /\
     render ext mode l lvl format v w =
     Returns (fst (after_rotation l w))
       (written (logger (fst (after_rotation l w))) 4
          (body ext mode tag format v) (snd (after_rotation l w)))) \/
  (level l <= lvl /\ shouldRotate l = true /\
   exists l' err w',
     rotate l w = Returns (l', Some err) w' /\
     render ext mode l lvl format v w =
     Exits 1 (written log_std 2
                (Sprint [VString "log rotate failed."; VError err]) w')).
Proof.
  intros Hl. destruct (is_level_tag lvl Hl) as (tag & Ht).
  destruct (Z.lt_ge_cases lvl (level l)) as [Hlt | Hge].
  { left. split; [exact Hlt | now apply render_filtered]. }
  right.
  destruct (rotation_passes_or_fails l w) as [Hp | (Hr & l' & err & w' & E)].
  - left. split; [exact Hge|]. split; [exact Hp|].
    exists tag. split; [exact Ht | now apply render_emits].
  - right. split; [exact Hge|]. split; [exact Hr|].
    exists l', err, w'. split; [exact E|].
    now apply (render_rotation_failed _ _ _ _ _ _ _ l' err w').
Qed.


(** X2. A minimum severity above fatal silences the logger.  [New] and
    [NewRotate] take any [Level]; with one past [Lfatal] every method is
    filtered: it does its epilogue in the world as it was, so nothing is
    written and no rotation is tried, while a fatal method still exits
    and a panic method still panics. *)
Theorem level_above_fatal_silences ext m l format v w :
  Lfatal < level l ->
  call ext m l format v w = epilogue ext m format v l w /\
  world_of (call ext m l format v w) = w /\
  Fatal l v w = Exits (-1) w /\
  Panic l v w = Panics (VString (Sprint v)) w /\
  Error l v w = Returns l w.
Proof.
  intros H.
  assert (Hf : forall mode lvl fmt, is_level lvl ->
            render ext mode l lvl fmt v w = Returns l w).
  { intros mode lvl fmt Hl. apply render_filtered.
    apply is_level_range in Hl. unfold Lfatal in H. lia. }
  assert (Hc : forall m0 fmt, call ext m0 l fmt v w = epilogue ext m0 fmt v l w).
  { intros m0 fmt. rewrite call_render. unfold bind.
    now rewrite Hf by apply method_level_is_level. }
  split; [apply Hc|]. split.
  - rewrite Hc. destruct m; reflexivity.
  - split; [exact (Hc MFatal format)|].
    split; [exact (Hc MPanic format) | exact (Hc MError format)].
Qed.

(** X3. The text of a line.  A call that is let through hands one line to
    the output: the tag and a space, then [Sprint] of the operands in the
    Print mode, [Sprintf] of the format and the operands in the Printf
    mode, and in the Println mode [Sprintln] of the operands after one
    more space when there is an operand. *)
Theorem rendered_text ext m l format v w tag :
  level l <= method_level m ->
  rotation_passes l w ->
  tag_of (method_level m) = Some tag ->
  new_lines w (call ext m l format v w) =
  [(logger (fst (after_rotation l w)),
    tag +:+ " " +:+
    match method_mode m with
    | ModePrint => Sprint v
    | ModePrintf => Sprintf ext format v
    | ModePrintln => (match v with [] => "" | _ => " " end) +:+ Sprintln v
    end)].
Proof.
  intros Hge Hp Ht. rewrite new_lines_call.
  rewrite (new_lines_emits _ _ _ _ _ _ _ tag) by assumption.
  destruct (method_mode m);
    [rewrite body_Print | rewrite body_Println | rewrite body_Printf];
    reflexivity.
Qed.

(** X4. [ParseLevel] inverts the table [levels].  The tag of each level,
    as the table has it and in lower case, parses to that level; and a
    text that parses to a level has the lower-case form of that level's
    tag. *)
Theorem ParseLevel_levels ext :
  (forall lvl tag,
     is_level lvl -> tag_of lvl = Some tag ->
     ParseLevel ext tag = (lvl, None) /\
     ParseLevel ext (mapBytes lowerByte tag) = (lvl, None)) /\
  (forall s lvl,
     ParseLevel ext s = (lvl, None) ->
     exists tag,
       tag_of lvl = Some tag /\ ToLower ext s = mapBytes lowerByte tag).
Proof.
  split.
  - intros lvl tag Hl Ht.
    destruct (level_cases lvl Hl) as [-> | [-> | [-> | [-> | [-> | ->]]]]];
      injection Ht as <-; split; reflexivity.
  - intros s lvl E.
    destruct (ParseLevel_ok ext s) as (Hl & Ht); [now rewrite E|].
    rewrite E in Hl, Ht. simpl in Hl, Ht.
    unfold token_of in Ht. destruct (tag_of lvl) as [tag|]; [|discriminate].
    exists tag. split; [reflexivity|]. now injection Ht as ->.
Qed.

(** X5. What a rotation check changes.  [rotate] always returns.  It never
    changes the minimum severity, the rotation mode, the path, the prefix
    or the flags; on an error the logger is the one it was; and when it
    changes the logger, the output, the handle and the suffix change
    together: the output is the new handle, open on the file now at the
    path, and the suffix is the one read at the second comparison. *)
Theorem rotate_frame (l : Logger) (w : World) :
  exists l' err w',
    rotate l w = Returns (l', err) w' /\
    level l' = level l /\ shouldRotate l' = shouldRotate l /\
    fileName l' = fileName l /\
    prefix (logger l') = prefix (logger l) /\
    flag (logger l') = flag (logger l) /\
    (err <> None -> l' = l) /\
    (l' = l \/
     (err = None /\ attached l' w' /\
      timeSuffix l' = clock w (S (ticks w)) /\
      timeSuffix l' <> timeSuffix l)).
Proof.
  destruct (rotate_cases l w) as (l' & err & w' & evs & E & T & _ & _ & _ & Hc).
  exists l', err, w'. split; [exact E|].
  destruct Hc as [(-> & -> & _) | (_ & H2 & R)].
  { repeat split; auto. }
  destruct R as [e Hn | e Ho Hn | e Ho Hn | f Ho Hs Hd Hs' Hh];
    try (repeat split; auto; fail).
  do 5 (split; [reflexivity|]).
  split; [congruence|].
  right. split; [reflexivity|]. split; [|split; [reflexivity | simpl; congruence]].
  destruct Hs' as [ino Hino].
  exists f, ino. simpl. rewrite Hh, Hino. auto.
Qed.

(** ** What a write does to the files *)

(** [Output] leaves the clock, the faults, the directory and the handles
    as they were, and makes at most one system call. *)
Lemma written_frame (lg : StdLogger) (depth : Z) (s : string) (w : World) :
  clock (written lg depth s w) = clock w /\
  ticks (written lg depth s w) = ticks w /\
  faults (written lg depth s w) = faults w /\
  dir (fs (written lg depth s w)) = dir (fs w) /\
  handles (fs (written lg depth s w)) = handles (fs w) /\
  (syscalls w <= syscalls (written lg depth s w) <= S (syscalls w))%nat.
Proof.
  unfold written, Output, Write. simpl.
  destruct (out lg) as [|f|id]; simpl; try (repeat split; lia).
  destruct (handles (fs w) !! f) as [[ino|]|]; simpl; try (repeat split; lia).
  destruct (faults w (syscalls w)); simpl; repeat split; lia.
Qed.

(** A write on an open handle that the system accepts appends the entry
    to the handle's file. *)
Lemma written_appends (lg : StdLogger) (depth : Z) (s : string) (w : World)
    (f : File) (ino : nat) :
  out lg = FileWriter f ->
  handles (fs w) !! f = Some (Some ino) ->
  faults w (syscalls w) = None ->
  data (fs (written lg depth s w)) =
  alter (fun es => es ++ [entry_of lg s]) ino (data (fs w)).
Proof.
  intros Ho Hh Hf. unfold written, Output, Write. simpl.
  rewrite Ho. simpl. rewrite Hh. simpl. rewrite Hf. reflexivity.
Qed.

(** A write on a handle that is not open, or one that the system refuses,
    changes no file. *)
Lemma written_lost (lg : StdLogger) (depth : Z) (s : string) (w : World)
    (f : File) :
  out lg = FileWriter f ->
  not_open w (Some f) \/ is_Some (faults w (syscalls w)) ->
  fs (written lg depth s w) = fs w.
Proof.
  intros Ho H. unfold written, Output, Write. simpl. rewrite Ho. simpl.
  destruct (handles (fs w) !! f) as [[ino|]|] eqn:Hh; try reflexivity.
  simpl. destruct H as [Hn | [msg Hm]].
  - exfalso. now apply (Hn f ino).
  - now rewrite Hm.
Qed.

(** The world in which a call let through by the rotation check writes
    has the files of the start when no rotation was due. *)
Lemma after_rotation_same_day (l : Logger) (w : World) :
  (shouldRotate l = true -> clock w (ticks w) = timeSuffix l) ->
  rotation_passes l w /\
  fst (after_rotation l w) = l /\
  fs (snd (after_rotation l w)) = fs w /\
  faults (snd (after_rotation l w)) = faults w /\
  syscalls (snd (after_rotation l w)) = syscalls w /\
  clock (snd (after_rotation l w)) = clock w /\
  (ticks w <= ticks (snd (after_rotation l w)) <= S (ticks w))%nat /\
  trace (snd (after_rotation l w)) = trace w.
Proof.
  intros H. unfold rotation_passes, after_rotation.
  destruct (shouldRotate l) eqn:Hr.
  - rewrite (rotate_fresh l w (H eq_refl)). simpl.
    split; [right; eauto|]. split_and!; reflexivity || lia.
  - simpl. split; [now left|]. split_and!; reflexivity || lia.
Qed.

Lemma file_entries_alter (w w' : World) (path : string) (ino : nat)
    (g : list Entry -> list Entry) :
  dir (fs w') = dir (fs w) ->
  data (fs w') = alter g ino (data (fs w)) ->
  dir (fs w) !! path = Some ino ->
  file_entries w' path = g <$> file_entries w path.
Proof.
  intros Hd Ha Hp. unfold file_entries. rewrite Hd, Hp, Ha.
  now rewrite lookup_alter_eq.
Qed.

Lemma text_of_tag ext m format v tag :
  tag_of (method_level m) = Some tag ->
  text_of ext (m, format, v) = body ext (method_mode m) tag format v.
Proof. intros H. unfold text_of. now rewrite H. Qed.

(** A plain method that is let through returns the logger of the
    rotation check in the world after the write. *)
Lemma plain_call_emits ext m l format v w :
  plain m = true ->
  level l <= method_level m ->
  rotation_passes l w ->
  call ext m l format v w =
  Returns (fst (after_rotation l w))
    (written (logger (fst (after_rotation l w))) 4
       (text_of ext (m, format, v)) (snd (after_rotation l w))).
Proof.
  intros Hpl Hge Hp.
  destruct (is_level_tag _ (method_level_is_level m)) as (tag & Ht).
  rewrite (text_of_tag _ _ _ _ _ Ht).
  rewrite call_render. unfold bind.
  rewrite (render_emits _ _ _ _ _ _ _ tag) by assumption.
  destruct m; try discriminate Hpl; reflexivity.
Qed.

Lemma plain_call_filtered ext m l format v w :
  plain m = true ->
  method_level m < level l ->
  call ext m l format v w = Returns l w.
Proof.
  intros Hpl Hlt. rewrite call_render. unfold bind.
  rewrite render_filtered by assumption.
  destruct m; try discriminate Hpl; reflexivity.
Qed.

(** One call on a day without rotation, with what the next call needs. *)
Lemma append_step ext m l format v w es :
  plain m = true ->
  level l <= method_level m ->
  attached l w ->
  (shouldRotate l = true -> clock w (ticks w) = timeSuffix l) ->
  faults w (syscalls w) = None ->
  file_entries w (fileName l) = Some es ->
  exists w',
    call ext m l format v w = Returns l w' /\
    file_entries w' (fileName l) =
    Some (es ++ [entry_of (logger l) (text_of ext (m, format, v))]) /\
    attached l w' /\
    (forall path,
       dir (fs w) !! path <> dir (fs w) !! fileName l ->
       file_entries w' path = file_entries w path) /\
    clock w' = clock w /\ faults w' = faults w /\
    (ticks w <= ticks w')%nat /\ (syscalls w <= syscalls w')%nat /\
    trace w' = trace w ++ [EvOutput (logger l) 4 (text_of ext (m, format, v))].
Proof.
  intros Hpl Hge (f & ino & Hfd & Hout & Hh & Hd) Hday Hfault Hes.
  destruct (after_rotation_same_day l w Hday)
    as (Hp & El & Efs & Efa & Esc & Ecl & Eti & Etr).
  rewrite (plain_call_emits _ _ _ _ _ _ Hpl Hge Hp). rewrite El.
  set (w1 := snd (after_rotation l w)) in *.
  set (t := text_of ext (m, format, v)).
  destruct (written_frame (logger l) 4 t w1) as (Wc & Wt & Wf & Wd & Wh & Ws).
  assert (Wa : data (fs (written (logger l) 4 t w1)) =
               alter (fun es0 => es0 ++ [entry_of (logger l) t]) ino (data (fs w))).
  { rewrite <- Efs. apply (written_appends _ _ _ _ f); [exact Hout | |].
    - now rewrite Efs.
    - now rewrite Efa, Esc. }
  rewrite Efs in Wd, Wh.
  eexists. split; [reflexivity|]. split_and!.
  - rewrite (file_entries_alter w _ _ ino _ Wd Wa Hd). now rewrite Hes.
  - exists f, ino. rewrite Wh, Wd. auto.
  - intros path Hne. unfold file_entries. rewrite Wd, Wa.
    destruct (dir (fs w) !! path) as [ino2|] eqn:Hp2; [|reflexivity].
    apply lookup_alter_ne. intros ->. apply Hne. now rewrite Hd.
  - congruence.
  - congruence.
  - lia.
  - lia.
  - rewrite trace_written. now rewrite Etr.
Qed.

(** X6. A line reaches the file.  On a logger whose handle is open on the
    file at its path, when no rotation is due and the system accepts the
    write, a method that only logs and passes the filter returns with the
    logger as it was, its entry is the new last entry of the file at the
    path, the logger is still attached to that file, and every other file
    is as before. *)
Theorem line_appended ext m l format v w es :
  plain m = true ->
  level l <= method_level m ->
  attached l w ->
  (shouldRotate l = true -> clock w (ticks w) = timeSuffix l) ->
  faults w (syscalls w) = None ->
  file_entries w (fileName l) = Some es ->
  exists w',
    call ext m l format v w = Returns l w' /\
    file_entries w' (fileName l) =
    Some (es ++ [entry_of (logger l) (text_of ext (m, format, v))]) /\
    attached l w' /\
    (forall path,
       dir (fs w) !! path <> dir (fs w) !! fileName l ->
       file_entries w' path = file_entries w path).
Proof.
  intros Hpl Hge Ha Hday Hfault Hes.
  destruct (append_step ext m l format v w es Hpl Hge Ha Hday Hfault Hes)
    as (w' & E & Hf & Ha' & Ho & _).
  exists w'. auto.
Qed.

(** X7. A failed write is silent.  When no rotation is due and the logger
    writes to a file handle that is not open, or the system refuses the
    write, a method that only logs and passes the filter still returns
    normally: the line was handed to the output, no file has changed, and
    nothing tells the caller. *)
Theorem lost_write_is_silent ext m l format v w f :
  plain m = true ->
  level l <= method_level m ->
  (shouldRotate l = true -> clock w (ticks w) = timeSuffix l) ->
  out (logger l) = FileWriter f ->
  not_open w (Some f) \/ is_Some (faults w (syscalls w)) ->
  exists w',
    call ext m l format v w = Returns l w' /\
    fs w' = fs w /\
    new_lines w (call ext m l format v w) =
    [(logger l, text_of ext (m, format, v))].
Proof.
  intros Hpl Hge Hday Hout Hlost.
  destruct (after_rotation_same_day l w Hday)
    as (Hp & El & Efs & Efa & Esc & _).
  destruct (is_level_tag _ (method_level_is_level m)) as (tag & Ht).
  eexists. split; [rewrite <- El at 2; now apply plain_call_emits|].
  split.
  - rewrite <- Efs. apply (written_lost _ _ _ _ f); [now rewrite El|].
    destruct Hlost as [Hn | Hs]; [left | right].
    + intros f0 ino Hf0. rewrite Efs. now apply Hn.
    + now rewrite Efa, Esc.
  - rewrite new_lines_call, (new_lines_emits _ _ _ _ _ _ _ tag) by assumption.
    now rewrite (text_of_tag _ _ _ _ _ Ht), El.
Qed.



(** X9. [NewRotate].  When the file cannot be opened the process exits
    with code 1 after the standard library's logger has printed the
    error, and no file has changed.  Otherwise the logger returned rotates,
    has the level, prefix and flags given, carries the suffix of the
    clock, and is attached to the file at the path: a file that was there
    keeps its entries (the file is opened for appending), a new one is
    empty. *)
Theorem NewRotate_spec (name pre : string) (flg : Z) (lvl : Level) (w : World) :
  (forall msg,
     faults w (syscalls w) = Some msg ->
     exists w',
       NewRotate name pre flg lvl w = Exits 1 w' /\
       fs w' = fs w /\
       events_since w w' =
       [EvOpenFile name (inr (PathError "open" name msg));
        EvOutput log_std 2 (Sprint [VError (PathError "open" name msg)])]) /\
  (faults w (syscalls w) = None ->
   exists l w',
     NewRotate name pre flg lvl w = Returns l w' /\
     attached l w' /\
     shouldRotate l = true /\ level l = lvl /\ fileName l = name /\
     prefix (logger l) = pre /\ flag (logger l) = flg /\
     timeSuffix l = clock w (ticks w) /\
     (dir (fs w) !! name = None -> file_entries w' name = Some []) /\
     (is_Some (dir (fs w) !! name) ->
      file_entries w' name = file_entries w name) /\
     exists f, events_since w w' = [EvOpenFile name (inl f)]).
Proof.
  split.
  - intros msg Hf. unfold NewRotate, bind, OpenFile. simpl. rewrite Hf.
    eexists. split; [reflexivity|]. split; [reflexivity|].
    apply events_since_app. simpl. now rewrite <- app_assoc.
  - intros Hf. unfold NewRotate, bind.
    destruct (dir (fs w) !! name) as [ino|] eqn:Hd.
    + rewrite (OpenFile_existing name ino) by assumption.
      eexists _, _. split; [reflexivity|]. simpl.
      split.
      { eexists _, ino. simpl. rewrite lookup_insert_eq. auto. }
      split_and!; try reflexivity.
      * discriminate.
      * eexists. apply events_since_app. reflexivity.
    + rewrite OpenFile_new by assumption.
      eexists _, _. split; [reflexivity|]. simpl.
      split.
      { eexists _, _. simpl. rewrite !lookup_insert_eq. auto. }
      split_and!; try reflexivity.
      * intros _. unfold file_entries. simpl. now rewrite !lookup_insert_eq.
      * intros [? ?]. discriminate.
      * eexists. apply events_since_app. reflexivity.
Qed.

(** X10. A logger made by [New] never rotates.  Whatever the method, the
    clock is not read, the directory and the handles stay as they are, no
    file is closed, renamed or opened (the trace gains nothing, or the one
    line), and a call that returns leaves the logger as it was. *)
Theorem New_never_rotates ext m (o : Writer) (pre : string) (flg : Z)
    (lvl : Level) format v w :
  ticks (world_of (call ext m (New o pre flg lvl) format v w)) = ticks w /\
  dir (fs (world_of (call ext m (New o pre flg lvl) format v w))) = dir (fs w) /\
  handles (fs (world_of (call ext m (New o pre flg lvl) format v w))) =
  handles (fs w) /\
  (events_since w (world_of (call ext m (New o pre flg lvl) format v w)) = [] \/
   events_since w (world_of (call ext m (New o pre flg lvl) format v w)) =
   [EvOutput (log_New o pre flg) 4 (text_of ext (m, format, v))]) /\
  (forall l' w',
     call ext m (New o pre flg lvl) format v w = Returns l' w' ->
     l' = New o pre flg lvl).
Proof.
  set (l := New o pre flg lvl).
  assert (Hr : shouldRotate l = false) by reflexivity.
  assert (Hp : rotation_passes l w) by now left.
  assert (Ha : after_rotation l w = (l, w)) by reflexivity.
  destruct (is_level_tag _ (method_level_is_level m)) as (tag & Ht).
  rewrite world_of_call.
  assert (Hcall : forall l' w',
            call ext m l format v w = Returns l' w' ->
            exists w0, render ext (method_mode m) l (method_level m) format v w =
                       Returns l' w0).
  { intros l' w'. rewrite call_render. unfold bind.
    destruct (render ext (method_mode m) l (method_level m) format v w);
      destruct m; simpl; intros [= <- <-] || discriminate; eauto. }
  destruct (Z.lt_ge_cases (method_level m) (level l)) as [Hlt | Hge].
  - rewrite render_filtered in * by assumption. simpl.
    rewrite events_since_refl. repeat split; auto.
    intros l' w' E. destruct (Hcall l' w' E) as (w0 & [= <- _]). reflexivity.
  - rewrite (render_emits _ _ _ _ _ _ _ tag) in * by assumption.
    rewrite Ha in *. simpl fst in *. simpl snd in *. simpl world_of.
    destruct (written_frame (logger l) 4
                (body ext (method_mode m) tag format v) w)
      as (_ & Wt & _ & Wd & Wh & _).
    split; [exact Wt|]. split; [exact Wd|]. split; [exact Wh|]. split.
    + right. rewrite (text_of_tag _ _ _ _ _ Ht).
      apply events_since_app. apply trace_written.
    + intros l' w' E. destruct (Hcall l' w' E) as (w0 & [= <- _]). reflexivity.
Qed.

(** ** Sequences of calls *)

Lemma lines_outputs (lg : StdLogger) (ts : list string) :
  lines (List.map (EvOutput lg 4) ts) = List.map (pair lg) ts.
Proof. induction ts as [|t ts IH]; simpl; [reflexivity | now rewrite IH]. Qed.

Lemma same_day_later (d : string) (w w' : World) :
  same_day d w -> clock w' = clock w -> (ticks w <= ticks w')%nat ->
  same_day d w'.
Proof. intros H Hc Ht n Hn. rewrite Hc. apply H. lia. Qed.

Lemma fault_free_later (w w' : World) :
  fault_free w -> faults w' = faults w -> (syscalls w <= syscalls w')%nat ->
  fault_free w'.
Proof. intros H Hf Hs n Hn. rewrite Hf. apply H. lia. Qed.

(** A run of calls within one day on an attached logger, with what the
    statement below reads off it. *)
Lemma calls_same_day ext (d : string) (l : Logger)
    (cs : list (Method * string * list Value)) :
  Forall (fun c => plain (fst (fst c)) = true) cs ->
  timeSuffix l = d ->
  forall w es,
    attached l w -> same_day d w -> fault_free w ->
    file_entries w (fileName l) = Some es ->
    exists w',
      call_all ext l cs w = Returns l w' /\
      file_entries w' (fileName l) =
      Some (es ++ List.map (fun c => entry_of (logger l) (text_of ext c))
                    (passing (level l) cs)) /\
      attached l w' /\
      trace w' =
      trace w ++ List.map (EvOutput (logger l) 4)
                   (List.map (text_of ext) (passing (level l) cs)).
Proof.
  intros Hpl Hd. induction Hpl as [|[[m format] v] cs Hm Hcs IH];
    intros w es Ha Hday Hff Hes.
  - exists w. simpl. rewrite !app_nil_r. auto.
  - simpl in Hm. simpl call_all. unfold bind. unfold passing. simpl List.filter.
    fold (passing (level l) cs).
    destruct (Z.ltb_spec (method_level m) (level l)) as [Hlt | Hge]; simpl negb; cbv iota.
    + rewrite plain_call_filtered by assumption. now apply IH.
    + destruct (append_step ext m l format v w es Hm Hge Ha)
        as (w1 & E & Hf1 & Ha1 & _ & Hc & Hfa & Ht & Hs & Htr);
        [intros _; rewrite Hd; apply Hday; lia | apply Hff; lia | exact Hes |].
      rewrite E.
      destruct (IH w1 _ Ha1 (same_day_later _ _ _ Hday Hc Ht)
                  (fault_free_later _ _ Hff Hfa Hs) Hf1)
        as (w' & E' & Hf' & Ha' & Htr').
      exists w'. split; [exact E'|]. split; [|split; [exact Ha'|]].
      * rewrite Hf'. simpl. now rewrite <- app_assoc.
      * rewrite Htr', Htr. simpl. now rewrite <- app_assoc.
Qed.

(** X11. The lines of one day.  A run of calls of methods that only log, by
    one goroutine, on an attached logger whose suffix is the day's, with
    no failure from the system: every call returns, the file at the path
    holds what it held followed by the entries of the calls that pass the
    filter, in the order of the calls, and these are the lines handed to
    the output. *)
Theorem calls_append_in_order ext (d : string) (l : Logger)
    (cs : list (Method * string * list Value)) (w : World) (es : list Entry) :
  Forall (fun c => plain (fst (fst c)) = true) cs ->
  timeSuffix l = d ->
  attached l w -> same_day d w -> fault_free w ->
  file_entries w (fileName l) = Some es ->
  exists w',
    call_all ext l cs w = Returns l w' /\
    file_entries w' (fileName l) =
    Some (es ++ List.map (fun c => entry_of (logger l) (text_of ext c))
                  (passing (level l) cs)) /\
    new_lines w (call_all ext l cs w) =
    List.map (fun c => (logger l, text_of ext c)) (passing (level l) cs).
Proof.
  intros Hpl Hd Ha Hday Hff Hes.
  destruct (calls_same_day ext d l cs Hpl Hd w es Ha Hday Hff Hes)
    as (w' & E & Hf & _ & Htr).
  exists w'. split; [exact E|]. split; [exact Hf|].
  rewrite E. unfold new_lines. simpl.
  rewrite (events_since_app _ _ _ Htr), lines_outputs.
  now rewrite List.map_map.
Qed.

(** ** Rotations in a run of calls *)

Lemma count_events_app (p : Event -> bool) (a b : list Event) :
  count_events p (a ++ b) = (count_events p a + count_events p b)%nat.
Proof. unfold count_events. now rewrite List.filter_app, length_app. Qed.

Lemma call_returns ext m l format v w l' w' :
  call ext m l format v w = Returns l' w' ->
  render ext (method_mode m) l (method_level m) format v w = Returns l' w'.
Proof.
  rewrite call_render. unfold bind.
  destruct (render ext (method_mode m) l (method_level m) format v w);
    destruct m; simpl; unfold ret, os_Exit, panic; congruence.
Qed.

(** One call within a day: the events it adds hold at most one rename and
    one open; none when the logger does not rotate or is on the day's
    suffix, and then a call that returns leaves the logger as it was; and
    a call that returns after a rename or an open leaves the logger on the
    day's suffix. *)
Lemma call_within_day ext (d : string) m l format v w :
  same_day d w ->
  exists evs,
    trace (world_of (call ext m l format v w)) = trace w ++ evs /\
    clock (world_of (call ext m l format v w)) = clock w /\
    (ticks w <= ticks (world_of (call ext m l format v w)))%nat /\
    (count_events is_rename evs <= 1)%nat /\
    (count_events is_open evs <= 1)%nat /\
    (shouldRotate l = false \/ timeSuffix l = d ->
     count_events is_rename evs = 0%nat /\ count_events is_open evs = 0%nat /\
     forall l' w', call ext m l format v w = Returns l' w' -> l' = l) /\
    (forall l' w',
       call ext m l format v w = Returns l' w' ->
       shouldRotate l' = shouldRotate l /\
       (timeSuffix l' = d \/
        (l' = l /\ count_events is_rename evs = 0%nat /\
         count_events is_open evs = 0%nat))).
Proof.
  intros Hday.
  assert (D0 : clock w (ticks w) = d) by (apply Hday; lia).
  assert (D1 : clock w (S (ticks w)) = d) by (apply Hday; lia).
  assert (Hret : forall l' w', call ext m l format v w = Returns l' w' ->
            render ext (method_mode m) l (method_level m) format v w =
            Returns l' w') by (intros; now apply call_returns).
  rewrite world_of_call.
  destruct (render_outcome ext (method_mode m) l (method_level m) format v w
              (method_level_is_level m))
    as [(Hlt & E) | [(Hge & Hp & tag & Ht & E) | (Hge & Hr & l1 & err & w1 & Er & E)]];
    rewrite E in *; simpl world_of.
  - (* filtered *)
    exists []. rewrite app_nil_r. split_and!; try reflexivity; try (unfold count_events; simpl; lia).
    + intros _. split_and!; try reflexivity.
      intros l' w' Hcall. apply Hret in Hcall. congruence.
    + intros l' w' Hcall. apply Hret in Hcall. injection Hcall as <- <-.
      split; [reflexivity|]. right. auto.
  - (* let through *)
    set (b := body ext (method_mode m) tag format v) in *.
    destruct (written_frame (logger (fst (after_rotation l w))) 4 b
                (snd (after_rotation l w))) as (Wc & Wt & _).
    destruct (shouldRotate l) eqn:Hr.
    + destruct (rotate_cases l w)
        as (l1 & e1 & w1 & evs & E1 & T & C & _ & K & Hc).
      assert (Ha : after_rotation l w = (l1, w1)).
      { unfold after_rotation. now rewrite Hr, E1. }
      assert (He : e1 = None).
      { destruct Hp as [Hp | (l2 & w2 & E2)]; [congruence|].
        rewrite E1 in E2. congruence. }
      subst e1. rewrite Ha in *. simpl fst in *. simpl snd in *.
      exists (evs ++ [EvOutput (logger l1) 4 b]).
      split; [rewrite trace_written, T; now rewrite <- app_assoc|].
      split; [congruence|]. split; [lia|].
      rewrite !count_events_app. simpl.
      destruct Hc as [(-> & _ & -> & _ & _ & Hfresh) | (S0 & S1 & R)].
      * (* no rotation was due *)
        assert (Hs : timeSuffix l = d) by (destruct Hfresh; congruence).
        split_and!; try (unfold count_events; simpl; lia).
        -- intros _. split_and!; try reflexivity.
           intros l' w' Hcall. apply Hret in Hcall. congruence.
        -- intros l' w' Hcall. apply Hret in Hcall. injection Hcall as <- <-. auto.
      * (* the rotation ran to its end *)
        inversion R; subst. unfold count_events. simpl.
        split_and!; try lia.
        -- intros [Hf | Hs]; [discriminate | congruence].
        -- intros l' w' Hcall. apply Hret in Hcall. injection Hcall as <- <-.
           split; [simpl; congruence|]. left. simpl. congruence.
    + assert (Ha : after_rotation l w = (l, w)).
      { unfold after_rotation. now rewrite Hr. }
      rewrite Ha in *. simpl fst in *. simpl snd in *.
      exists [EvOutput (logger l) 4 b].
      split; [apply trace_written|]. split; [congruence|]. split; [lia|].
      split_and!; try (unfold count_events; simpl; lia).
      * intros _. split_and!; try reflexivity.
        intros l' w' Hcall. apply Hret in Hcall. congruence.
      * intros l' w' Hcall. apply Hret in Hcall. injection Hcall as <- <-. auto.
  - (* the rotation failed *)
    destruct (rotate_cases l w)
      as (l2 & e2 & w2 & evs & E2 & T & C & _ & K & Hc).
    rewrite Er in E2. injection E2 as <- <- <-.
    destruct (written_frame log_std 2
                (Sprint [VString "log rotate failed."; VError err]) w1)
      as (Wc & Wt & _).
    exists (evs ++ [EvOutput log_std 2
                      (Sprint [VString "log rotate failed."; VError err])]).
    split; [rewrite trace_written, T; now rewrite <- app_assoc|].
    split; [congruence|]. split; [lia|].
    rewrite !count_events_app. simpl.
    destruct Hc as [(_ & Hn & _) | (S0 & S1 & R)]; [discriminate|].
    split_and!.
    + inversion R; subst; unfold count_events; simpl; lia.
    + inversion R; subst; unfold count_events; simpl; lia.
    + intros [Hf | Hs]; [congruence | congruence].
    + intros l' w' Hcall. apply Hret in Hcall. discriminate.
Qed.

Lemma call_all_cons ext l m format v cs w :
  call_all ext l ((m, format, v) :: cs) w =
  match call ext m l format v w with
  | Returns l' w' => call_all ext l' cs w'
  | Exits code w' => Exits code w'
  | Panics p w' => Panics p w'
  end.
Proof. reflexivity. Qed.

(** A run on a logger that does not rotate or is on the day's suffix
    renames and opens nothing. *)
Lemma run_without_rotation ext (d : string)
    (cs : list (Method * string * list Value)) :
  forall l w,
    same_day d w ->
    shouldRotate l = false \/ timeSuffix l = d ->
    exists evs,
      trace (world_of (call_all ext l cs w)) = trace w ++ evs /\
      count_events is_rename evs = 0%nat /\ count_events is_open evs = 0%nat.
Proof.
  induction cs as [|[[m format] v] cs IH]; intros l w Hday Hq.
  - exists []. simpl. now rewrite app_nil_r.
  - rewrite call_all_cons.
    destruct (call_within_day ext d m l format v w Hday)
      as (evs & T & C & K & _ & _ & Hquiet & _).
    destruct (Hquiet Hq) as (Qr & Qo & Hl).
    destruct (call ext m l format v w) as [l' w' | code w' | p w'] eqn:E;
      simpl in T, C, K.
    + rewrite (Hl l' w' eq_refl) in *.
      destruct (IH l w' (same_day_later _ _ _ Hday C K) Hq) as (evs' & T' & Qr' & Qo').
      exists (evs ++ evs'). rewrite T', T, <- app_assoc.
      rewrite !count_events_app. split; [reflexivity | lia].
    + exists evs. auto.
    + exists evs. auto.
Qed.

Lemma run_rotates_once ext (d : string)
    (cs : list (Method * string * list Value)) :
  forall l w,
    same_day d w ->
    exists evs,
      trace (world_of (call_all ext l cs w)) = trace w ++ evs /\
      (count_events is_rename evs <= 1)%nat /\
      (count_events is_open evs <= 1)%nat.
Proof.
  induction cs as [|[[m format] v] cs IH]; intros l w Hday.
  - exists []. simpl. rewrite app_nil_r. unfold count_events. simpl.
    split; [reflexivity | lia].
  - rewrite call_all_cons.
    destruct (call_within_day ext d m l format v w Hday)
      as (evs & T & C & K & Hr1 & Ho1 & _ & Hret).
    destruct (call ext m l format v w) as [l' w' | code w' | p w'] eqn:E;
      simpl in T, C, K.
    + assert (Hday' : same_day d w') by exact (same_day_later _ _ _ Hday C K).
      destruct (Hret l' w' eq_refl) as (_ & [Hs | (-> & Qr & Qo)]).
      * destruct (run_without_rotation ext d cs l' w' Hday' (or_intror Hs))
          as (evs' & T' & Qr' & Qo').
        exists (evs ++ evs'). rewrite T', T, <- app_assoc.
        rewrite !count_events_app. split; [reflexivity | lia].
      * destruct (IH l w' Hday') as (evs' & T' & Hr' & Ho').
        exists (evs ++ evs'). rewrite T', T, <- app_assoc.
        rewrite !count_events_app. split; [reflexivity | lia].
    + exists evs. auto.
    + exists evs. auto.
Qed.

(** X12. One rotation a day.  In any run of method calls by one goroutine
    whose readings of the clock all fall on one day, whatever the logger,
    the operands and the failures of the system, at most one rename and
    at most one open are made; and none at all when the logger does not
    rotate or its suffix is the day's. *)
Theorem one_rotation_a_day ext (d : string) (l : Logger)
    (cs : list (Method * string * list Value)) (w : World) :
  same_day d w ->
  (count_events is_rename
     (events_since w (world_of (call_all ext l cs w))) <= 1)%nat /\
  (count_events is_open
     (events_since w (world_of (call_all ext l cs w))) <= 1)%nat /\
  (shouldRotate l = false \/ timeSuffix l = d ->
   count_events is_rename
     (events_since w (world_of (call_all ext l cs w))) = 0%nat /\
   count_events is_open
     (events_since w (world_of (call_all ext l cs w))) = 0%nat).
Proof.
  intros Hday.
  destruct (run_rotates_once ext d cs l w Hday) as (evs & T & Hr & Ho).
  rewrite (events_since_app _ _ _ T).
  split; [exact Hr|]. split; [exact Ho|].
  intros Hq.
  destruct (run_without_rotation ext d cs l w Hday Hq) as (evs' & T' & Qr & Qo).
  rewrite T in T'. apply app_inv_head in T'. subst evs'. auto.
Qed.

(** ** What the files keep through a rotation, failed or not *)








Lemma after_rotation_of_rotate (l : Logger) (w : World) l' err w' :
  shouldRotate l = true -> rotate l w = Returns (l', err) w' ->
  after_rotation l w = (l', w').
Proof. intros Hr E. unfold after_rotation. now rewrite Hr, E. Qed.



(** X14. A logger stays attached.  When the logger writes to its own
    handle and the handle is open on the file at the path, this is so
    again after every call that returns, with or without a rotation and
    whatever the writes did. *)
Theorem attached_preserved ext m l format v w l' w' :
  attached l w ->
  call ext m l format v w = Returns l' w' ->
  attached l' w' /\ fileName l' = fileName l.
Proof.
  intros Ha Hcall. apply call_returns in Hcall.
  assert (Hw : forall l0 w0 b,
            attached l0 w0 -> attached l0 (written (logger l0) 4 b w0)).
  { intros l0 w0 b (f & ino & Hfd & Hout & Hh & Hd).
    destruct (written_frame (logger l0) 4 b w0) as (_ & _ & _ & Wd & Wh & _).
    exists f, ino. rewrite Wd, Wh. auto. }
  destruct (render_outcome ext (method_mode m) l (method_level m) format v w
              (method_level_is_level m))
    as [(Hlt & E) | [(Hge & Hp & tag & Ht & E) | (Hge & Hr & l1 & err & w1 & Er & E)]];
    rewrite E in Hcall; [| |discriminate].
  - injection Hcall as <- <-. auto.
  - injection Hcall as <- <-.
    destruct (shouldRotate l) eqn:Hr.
    + destruct (rotate_cases l w) as (l1 & e1 & w1 & evs & E1 & _ & _ & _ & _ & Hc).
      rewrite (after_rotation_of_rotate l w l1 e1 w1 Hr E1). simpl fst. simpl snd.
      assert (He : e1 = None).
      { destruct Hp as [Hp | (l2 & w2 & E2)]; [congruence|].
        rewrite E1 in E2. congruence. }
      subst e1.
      destruct Hc as [(-> & _ & _ & Hfs & _) | (_ & _ & R)].
      * split; [|reflexivity]. apply Hw.
        destruct Ha as (f & ino & Hfd & Hout & Hh & Hd).
        exists f, ino. rewrite Hfs. auto.
      * inversion R as [| | | f Ho Hs Hd Hs' Hh]; subst.
        split; [|reflexivity]. apply Hw.
        destruct Hs' as [ino Hino].
        exists f, ino. simpl. rewrite Hh, Hino. auto.
    + unfold after_rotation. rewrite Hr. simpl. split; [now apply Hw | reflexivity].
Qed.

(** X15. The message of a failed rotation.  The text that the standard
    library's logger prints before the exit is "log rotate failed." and,
    with nothing in between, the text of the error ([Sprint] puts no space
    next to a string operand). *)
Theorem rotation_failure_message ext m l format v w l' err w' :
  shouldRotate l = true ->
  level l <= method_level m ->
  rotate l w = Returns (l', Some err) w' ->
  events_since w' (world_of (call ext m l format v w)) =
  [EvOutput log_std 2 ("log rotate failed." +:+ Error_ err)].
Proof.
  intros Hr Hge E. rewrite world_of_call.
  rewrite (render_rotation_failed _ _ _ _ _ _ _ l' err w') by assumption.
  simpl world_of. apply events_since_app. rewrite trace_written.
  unfold Sprint. simpl. now rewrite append_nil_r.
Qed.

(** ** The further theorems at concrete inputs *)

Lemma attached_test_logger : attached test_logger test_world.
Proof. exists 0%nat, 0%nat. split_and!; reflexivity. Qed.

Lemma attached_stale_logger : attached stale_logger test_world.
Proof. exists 0%nat, 0%nat. split_and!; reflexivity. Qed.

Lemma fault_free_test_world : fault_free test_world.
Proof. intros n _. reflexivity. Qed.

Lemma same_day_test_world : same_day "20240101" test_world.
Proof. intros n _. reflexivity. Qed.

(** A minimum severity of 6: [Fatal("x")] exits and writes nothing. *)
Lemma level_above_fatal_silences_witness :
  Lfatal < level (New Stderr "" Ldefault 6) /\
  world_of (call ext0 MFatal (New Stderr "" Ldefault 6) "" [VString "x"] world0)
  = world0 /\
  Fatal (New Stderr "" Ldefault 6) [VString "x"] world0 = Exits (-1) world0.
Proof.
  assert (H : Lfatal < level (New Stderr "" Ldefault 6)) by (vm_compute; reflexivity).
  split; [exact H|].
  destruct (level_above_fatal_silences ext0 MFatal (New Stderr "" Ldefault 6)
              "" [VString "x"] world0 H) as (_ & Hw & Hf & _).
  split; [exact Hw | exact Hf].
Defined.

(** [Println("a")] on a logger with minimum severity info. *)
Lemma rendered_text_witness :
  level info_only <= method_level MPrintln /\
  rotation_passes info_only world0 /\
  tag_of (method_level MPrintln) = Some "INFO" /\
  new_lines world0 (call ext0 MPrintln info_only "" [VString "a"] world0) =
  [(logger info_only, "INFO  a" +:+ String newline "")].
Proof.
  assert (Hg : level info_only <= method_level MPrintln) by (vm_compute; discriminate).
  assert (Hp : rotation_passes info_only world0) by (left; reflexivity).
  assert (Ht : tag_of (method_level MPrintln) = Some "INFO") by reflexivity.
  split; [exact Hg|]. split; [exact Hp|]. split; [exact Ht|].
  rewrite (rendered_text ext0 MPrintln info_only "" [VString "a"] world0 "INFO"
             Hg Hp Ht).
  reflexivity.
Defined.

(** [Info("log 1")] on the logger and the world of [NewRotate]. *)
Lemma line_appended_witness :
  plain MInfo = true /\
  level test_logger <= method_level MInfo /\
  attached test_logger test_world /\
  (shouldRotate test_logger = true ->
   clock test_world (ticks test_world) = timeSuffix test_logger) /\
  faults test_world (syscalls test_world) = None /\
  file_entries test_world (fileName test_logger) = Some [] /\
  exists w',
    call ext0 MInfo test_logger "" [VString "log 1"] test_world =
    Returns test_logger w' /\
    file_entries w' "test.log" =
    Some [mkEntry "" Ldefault ("INFO log 1" +:+ String newline "")].
Proof.
  assert (H1 : plain MInfo = true) by reflexivity.
  assert (H2 : level test_logger <= method_level MInfo) by (vm_compute; discriminate).
  assert (H3 : attached test_logger test_world) by exact attached_test_logger.
  assert (H4 : shouldRotate test_logger = true ->
               clock test_world (ticks test_world) = timeSuffix test_logger)
    by (intros _; reflexivity).
  assert (H5 : faults test_world (syscalls test_world) = None) by reflexivity.
  assert (H6 : file_entries test_world (fileName test_logger) = Some [])
    by reflexivity.
  split_and!; try assumption.
  destruct (line_appended ext0 MInfo test_logger "" [VString "log 1"] test_world
              [] H1 H2 H3 H4 H5 H6) as (w' & E & Hf & _).
  exists w'. split; [exact E|]. exact Hf.
Defined.

(** [Info("x")] on the test's logger in a world where its handle was
    never opened. *)
Lemma lost_write_is_silent_witness :
  plain MInfo = true /\
  level test_logger <= method_level MInfo /\
  (shouldRotate test_logger = true ->
   clock world0 (ticks world0) = timeSuffix test_logger) /\
  out (logger test_logger) = FileWriter 0%nat /\
  (not_open world0 (Some 0%nat) \/ is_Some (faults world0 (syscalls world0))) /\
  exists w',
    call ext0 MInfo test_logger "" [VString "x"] world0 = Returns test_logger w' /\
    fs w' = fs world0.
Proof.
  assert (H1 : plain MInfo = true) by reflexivity.
  assert (H2 : level test_logger <= method_level MInfo) by (vm_compute; discriminate).
  assert (H3 : shouldRotate test_logger = true ->
               clock world0 (ticks world0) = timeSuffix test_logger)
    by (intros _; reflexivity).
  assert (H4 : out (logger test_logger) = FileWriter 0%nat) by reflexivity.
  assert (H5 : not_open world0 (Some 0%nat) \/
               is_Some (faults world0 (syscalls world0))).
  { left. intros f ino _. simpl. rewrite lookup_empty. discriminate. }
  split_and!; try assumption.
  destruct (lost_write_is_silent ext0 MInfo test_logger "" [VString "x"] world0
              0%nat H1 H2 H3 H4 H5) as (w' & E & Hf & _).
  exists w'. split; [exact E | exact Hf].
Defined.


(** [Debug("a"); Info("b"); Warnf("c")] on the test's logger: the debug
    line is filtered, the other two are in the file, in this order. *)
Lemma calls_append_in_order_witness :
  Forall (fun c => plain (fst (fst c)) = true)
    [(MDebug, "", [VString "a"]); (MInfo, "", [VString "b"]); (MWarnf, "c", [])] /\
  timeSuffix test_logger = "20240101" /\
  attached test_logger test_world /\
  same_day "20240101" test_world /\
  fault_free test_world /\
  file_entries test_world (fileName test_logger) = Some [] /\
  exists w',
    call_all ext0 test_logger
      [(MDebug, "", [VString "a"]); (MInfo, "", [VString "b"]); (MWarnf, "c", [])]
      test_world = Returns test_logger w' /\
    file_entries w' "test.log" =
    Some [mkEntry "" Ldefault ("INFO b" +:+ String newline "");
          mkEntry "" Ldefault ("WARN c" +:+ String newline "")].
Proof.
  assert (H1 : Forall (fun c : Method * string * list Value =>
                         plain (fst (fst c)) = true)
                 [(MDebug, "", [VString "a"]); (MInfo, "", [VString "b"]);
                  (MWarnf, "c", [])])
    by (repeat constructor).
  assert (H2 : timeSuffix test_logger = "20240101") by reflexivity.
  assert (H3 : attached test_logger test_world) by exact attached_test_logger.
  assert (H4 : same_day "20240101" test_world) by exact same_day_test_world.
  assert (H5 : fault_free test_world) by exact fault_free_test_world.
  assert (H6 : file_entries test_world (fileName test_logger) = Some [])
    by reflexivity.
  split_and!; try assumption.
  destruct (calls_append_in_order ext0 "20240101" test_logger _ test_world []
              H1 H2 H3 H4 H5 H6) as (w' & E & Hf & _).
  exists w'. split; [exact E | exact Hf].
Defined.

(** Two calls after the suffix was set back: one rename at most. *)
Lemma one_rotation_a_day_witness :
  same_day "20240101" test_world /\
  (count_events is_rename
     (events_since test_world
        (world_of
           (call_all ext0 stale_logger
              [(MInfo, "", [VString "log 3"]); (MInfo, "", [VString "log 4"])]
              test_world))) <= 1)%nat.
Proof.
  assert (H : same_day "20240101" test_world) by exact same_day_test_world.
  split; [exact H|].
  exact (proj1 (one_rotation_a_day ext0 "20240101" stale_logger
                  [(MInfo, "", [VString "log 3"]); (MInfo, "", [VString "log 4"])]
                  test_world H)).
Defined.


(** [Info("log 3")] after the suffix was set back: the logger that comes
    back is attached to the new file. *)
Lemma attached_preserved_witness :
  attached stale_logger test_world /\
  exists l' w',
    call ext0 MInfo stale_logger "" [VString "log 3"] test_world = Returns l' w' /\
    attached l' w' /\ fileName l' = "test.log".
Proof.
  assert (H : attached stale_logger test_world) by exact attached_stale_logger.
  split; [exact H|].
  assert (E : exists l' w',
            call ext0 MInfo stale_logger "" [VString "log 3"] test_world =
            Returns l' w')
    by (eexists _, _; vm_compute; reflexivity).
  destruct E as (l' & w' & E).
  exists l', w'. split; [exact E|].
  exact (attached_preserved ext0 MInfo stale_logger "" [VString "log 3"]
           test_world l' w' H E).
Defined.

(** [Info("x")] on a stale rotating logger whose file was never opened. *)
Lemma rotation_failure_message_witness :
  shouldRotate stale_logger = true /\
  level stale_logger <= method_level MInfo /\
  exists l' err w',
    rotate stale_logger world0 = Returns (l', Some err) w' /\
    events_since w'
      (world_of (call ext0 MInfo stale_logger "" [VString "x"] world0)) =
    [EvOutput log_std 2 ("log rotate failed." +:+ Error_ err)].
Proof.
  assert (H1 : shouldRotate stale_logger = true) by reflexivity.
  assert (H2 : level stale_logger <= method_level MInfo) by (vm_compute; discriminate).
  split; [exact H1|]. split; [exact H2|].
  eexists _, _, _. split; [vm_compute; reflexivity|].
  exact (rotation_failure_message ext0 MInfo stale_logger "" [VString "x"] world0
           _ _ _ H1 H2 eq_refl).
Defined.
